(** * Answer cache and query orchestration of the Intelligent
      Query-Retrieval System

    A shallow embedding of [services/geminiService.ts] (the response cache,
    its fingerprint and [runQueryRetrieval]) and of the part of the [App]
    component that consumes it ([processedQuestions], [isFormValid],
    [handleAnalyze]), followed by the properties of the specification that
    were checked against it. *)

From stdpp Require Import base numbers list strings pretty gmap fin_maps.
From Stdlib Require Import ZArith Lia Ascii.

Local Open Scope Z_scope.
Set Warnings "-register-all".

(** ** JavaScript strings

    A JavaScript string is a sequence of UTF-16 code units, which is what
    [charCodeAt], [length], [trim], [split] and [includes] work on.  A
    code unit is below [2^16]. *)

Abbreviation jsstring := (list Z).

Definition code_unit (c : Z) : Prop := 0 <= c < 65536.

(** ASCII literals of the source text, as code units. *)
Fixpoint js (s : string) : jsstring :=
  match s with
  | EmptyString => []
  | String a s' => Z.of_N (N_of_ascii a) :: js s'
  end.

(** The same, where the literal uses ['] for the double quote character
    (code unit 34); used to write JSON texts. *)
Definition jsq (s : string) : jsstring :=
  (fun c => if Z.eqb c 39 then 34 else c) <$> js s.

(** The code units of the character with code point [cp], as in
    [String.fromCodePoint(cp)]: the code point itself below [2^16], a
    surrogate pair from there on. *)
Definition utf16 (cp : Z) : jsstring :=
  if Z.ltb cp 65536 then [cp]
  else [55296 + (cp - 65536) / 1024; 56320 + (cp - 65536) mod 1024].

(** [Array.prototype.join] on an array of strings. *)
Fixpoint join (sep : jsstring) (parts : list jsstring) : jsstring :=
  match parts with
  | [] => []
  | [p] => p
  | p :: rest => p ++ sep ++ join sep rest
  end.

(** [WhiteSpace] and [LineTerminator] code units, the ones [trim] strips. *)
Definition is_white_space (c : Z) : bool :=
  (Z.leb 9 c && Z.leb c 13) || Z.eqb c 32 || Z.eqb c 160 || Z.eqb c 5760
  || (Z.leb 8192 c && Z.leb c 8202) || Z.eqb c 8232 || Z.eqb c 8233
  || Z.eqb c 8239 || Z.eqb c 8287 || Z.eqb c 12288 || Z.eqb c 65279.

Fixpoint trimStart (s : jsstring) : jsstring :=
  match s with
  | c :: s' => if is_white_space c then trimStart s' else s
  | [] => []
  end.

Definition trimEnd (s : jsstring) : jsstring := reverse (trimStart (reverse s)).

(** [String.prototype.trim]. *)
Definition trim (s : jsstring) : jsstring := trimEnd (trimStart s).

(** [s.split(sep)] for a one code unit separator. *)
Fixpoint split (sep : Z) (s : jsstring) : list jsstring :=
  match s with
  | [] => [[]]
  | c :: s' =>
      if Z.eqb c sep then [] :: split sep s'
      else match split sep s' with
           | p :: ps => (c :: p) :: ps
           | [] => [[c]]
           end
  end.

Fixpoint startsWith (s pat : jsstring) : bool :=
  match pat, s with
  | [], _ => true
  | p :: pat', c :: s' => Z.eqb c p && startsWith s' pat'
  | _ :: _, [] => false
  end.

(** [s.includes(pat)]: [pat] occurs in [s] as a contiguous run. *)
Fixpoint includes (s pat : jsstring) : bool :=
  startsWith s pat ||
  match s with
  | [] => false
  | _ :: s' => includes s' pat
  end.

(** [Number.prototype.toString] on an integer: decimal digits with a
    leading [-] for negative values. *)
Definition toString (n : Z) : jsstring := js (pretty n).

(** ** 32-bit integer operators *)

(** [ToInt32]: the value modulo [2^32], taken in [-2^31, 2^31). *)
Definition toInt32 (x : Z) : Z := (x + 2 ^ 31) mod 2 ^ 32 - 2 ^ 31.

(** [x << n] *)
Definition shl32 (x n : Z) : Z := toInt32 (Z.shiftl (toInt32 x) (n mod 32)).

(** [x & y] *)
Definition and32 (x y : Z) : Z := toInt32 (Z.land (toInt32 x) (toInt32 y)).

(** ** The fingerprint, [generateCacheKey] *)

(** One round of the loop body:
    [hash = ((hash << 5) - hash) + char; hash = hash & hash].
    The subtraction and the addition are on numbers; their operands stay
    below [2^33] in absolute value, so they are exact. *)
Definition hash_step (hash char : Z) : Z :=
  let hash := (shl32 hash 5 - hash) + char in
  and32 hash hash.

(** The [for] loop over [combined], from [hash = 0]. *)
Definition hash_loop (hash : Z) (combined : jsstring) : Z :=
  foldl hash_step hash combined.

Definition generateCacheKey (documentText : jsstring) (questions : list jsstring)
  : jsstring :=
  let combined := documentText ++ join (js "||") questions in
  let hash := hash_loop 0 combined in
  toString hash.

(** ** JSON values and [JSON.parse]

    The values [JSON.parse] builds.  A number is kept as the decimal it
    was written as, [m * 10 ^ e]; an object keeps its members in the order
    of the text. *)

Inductive json : Type :=
| JNull
| JBool (b : bool)
| JNumber (m e : Z)
| JString (s : jsstring)
| JArray (items : list json)
| JObject (members : list (jsstring * json)).

Definition jsstring_eqb (a b : jsstring) : bool := bool_decide (a = b).

(** The Number a decimal [m * 10 ^ e] denotes is zero exactly when the
    decimal is at most [2 ^ -1075] in absolute value (round to nearest,
    ties to even, below the least subnormal [2 ^ -1074]). *)
Definition number_is_zero (m e : Z) : bool :=
  Z.leb (Z.abs m * 2 ^ 1075 * 10 ^ Z.max 0 e) (10 ^ Z.max 0 (- e)).

(** [ToBoolean] on a parsed value, as in [if (v)] and [v || w]. *)
Definition truthy (v : json) : bool :=
  match v with
  | JNull => false
  | JBool b => b
  | JNumber m e => negb (number_is_zero m e)
  | JString s => negb (jsstring_eqb s [])
  | JArray _ | JObject _ => true
  end.

(** [v.name] on a parsed value: the member of that name when [v] is an
    object (the last one written wins), [undefined] otherwise.  [name] is
    not a property of the prototypes of arrays, strings, numbers or
    booleans in the uses below. *)
Definition get_member (name : jsstring) (v : json) : option json :=
  match v with
  | JObject members =>
      snd <$> head (filter (fun kv => fst kv = name) (reverse members))
  | _ => None
  end.

Definition is_json_ws (c : Z) : bool :=
  Z.eqb c 32 || Z.eqb c 9 || Z.eqb c 10 || Z.eqb c 13.

Definition hex_digit (c : Z) : option Z :=
  if Z.leb 48 c && Z.leb c 57 then Some (c - 48)
  else if Z.leb 97 c && Z.leb c 102 then Some (c - 87)
  else if Z.leb 65 c && Z.leb c 70 then Some (c - 55)
  else None.

Definition escape_char (c : Z) : option Z :=
  if Z.eqb c 34 then Some 34          (* quote *)
  else if Z.eqb c 92 then Some 92     (* backslash *)
  else if Z.eqb c 47 then Some 47     (* slash *)
  else if Z.eqb c 98 then Some 8      (* b: backspace *)
  else if Z.eqb c 102 then Some 12    (* f: form feed *)
  else if Z.eqb c 110 then Some 10    (* n: line feed *)
  else if Z.eqb c 114 then Some 13    (* r: carriage return *)
  else if Z.eqb c 116 then Some 9     (* t: tab *)
  else None.

(** The characters of a string literal after its opening quote, up to the
    closing quote; the result is the string and the text that follows. *)
Fixpoint parse_chars (s : jsstring) : option (jsstring * jsstring) :=
  match s with
  | [] => None
  | c :: s' =>
      if Z.eqb c 34 then Some ([], s')
      else if Z.eqb c 92 then
        match s' with
        | [] => None
        | e :: s'' =>
            if Z.eqb e 117 then
              match s'' with
              | h1 :: h2 :: h3 :: h4 :: rest =>
                  match hex_digit h1, hex_digit h2, hex_digit h3, hex_digit h4 with
                  | Some d1, Some d2, Some d3, Some d4 =>
                      match parse_chars rest with
                      | Some (str, r) =>
                          Some (((d1 * 16 + d2) * 16 + d3) * 16 + d4 :: str, r)
                      | None => None
                      end
                  | _, _, _, _ => None
                  end
              | _ => None
              end
            else
              match escape_char e, parse_chars s'' with
              | Some c', Some (str, r) => Some (c' :: str, r)
              | _, _ => None
              end
        end
      else if Z.ltb c 32 then None
      else match parse_chars s' with
           | Some (str, r) => Some (c :: str, r)
           | None => None
           end
  end.

(** The leading decimal digits of a text, as digit values. *)
Fixpoint take_digits (s : jsstring) : list Z * jsstring :=
  match s with
  | c :: s' =>
      if Z.leb 48 c && Z.leb c 57
      then let '(ds, r) := take_digits s' in (c - 48 :: ds, r)
      else ([], s)
  | [] => ([], [])
  end.

Definition digits_value (ds : list Z) : Z := foldl (fun acc d => acc * 10 + d) 0 ds.

Definition take_sign (minus_only : bool) (s : jsstring) : bool * jsstring :=
  match s with
  | c :: s' =>
      if Z.eqb c 45 then (true, s')
      else if negb minus_only && Z.eqb c 43 then (false, s')
      else (false, s)
  | [] => (false, s)
  end.

(** A number literal at the head of a text: mantissa, decimal exponent and
    the text that follows. *)
Definition parse_number (s : jsstring) : option (Z * Z * jsstring) :=
  let '(neg, s1) := take_sign true s in
  let '(ip, s2) := take_digits s1 in
  match ip with
  | [] => None
  | d :: ds =>
      if Z.eqb d 0 && negb (bool_decide (ds = [])) then None
      else
        let frac :=
          match s2 with
          | c :: s' =>
              if Z.eqb c 46
              then let '(fp, r) := take_digits s' in
                   if bool_decide (fp = []) then None else Some (fp, r)
              else Some ([], s2)
          | [] => Some ([], s2)
          end in
        match frac with
        | None => None
        | Some (fp, s3) =>
            let exp :=
              match s3 with
              | c :: s' =>
                  if Z.eqb c 101 || Z.eqb c 69
                  then let '(eneg, s4) := take_sign false s' in
                       let '(ed, s5) := take_digits s4 in
                       if bool_decide (ed = []) then None
                       else Some ((if eneg then - digits_value ed else digits_value ed), s5)
                  else Some (0, s3)
              | [] => Some (0, s3)
              end in
            match exp with
            | None => None
            | Some (ex, rest) =>
                let m := digits_value (ip ++ fp) in
                Some ((if neg then - m else m), ex - Z.of_nat (length fp), rest)
            end
        end
  end.

(** The containers under construction around the current position. *)
Inductive frame : Type :=
| InArray (items_rev : list json)
| InObject (members_rev : list (jsstring * json))
| InMember (members_rev : list (jsstring * json)) (key : jsstring).

Inductive mode : Type :=
| MValue (may_close : bool)   (* a value; [may_close]: or the end of an empty array *)
| MKey (may_close : bool)     (* a member name; [may_close]: or the end of an empty object *)
| MColon (key : jsstring)
| MDone (v : json).           (* a value is complete *)

(** The parser reads the text once, left to right.  [skip] counts the code
    units of a string, number or literal that were already consumed when it
    was recognised. *)
Fixpoint parse_from (s : jsstring) (skip : nat) (stack : list frame) (m : mode)
  : option json :=
  match s with
  | [] =>
      match skip, stack, m with
      | O, [], MDone v => Some v
      | _, _, _ => None
      end
  | c :: s' =>
      match skip with
      | S k => parse_from s' k stack m
      | O =>
          if is_json_ws c then parse_from s' O stack m
          else
            match m with
            | MValue may_close =>
                if Z.eqb c 91 then parse_from s' O (InArray [] :: stack) (MValue true)
                else if Z.eqb c 123 then parse_from s' O (InObject [] :: stack) (MKey true)
                else if Z.eqb c 93 then
                  match may_close, stack with
                  | true, InArray [] :: stack' => parse_from s' O stack' (MDone (JArray []))
                  | _, _ => None
                  end
                else if Z.eqb c 34 then
                  match parse_chars s' with
                  | Some (str, r) =>
                      parse_from s' (length s' - length r)%nat stack (MDone (JString str))
                  | None => None
                  end
                else if startsWith s (js "true") then parse_from s' 3 stack (MDone (JBool true))
                else if startsWith s (js "false") then parse_from s' 4 stack (MDone (JBool false))
                else if startsWith s (js "null") then parse_from s' 3 stack (MDone JNull)
                else
                  match parse_number s with
                  | Some (mant, ex, r) =>
                      parse_from s' (length s' - length r)%nat stack (MDone (JNumber mant ex))
                  | None => None
                  end
            | MKey may_close =>
                if Z.eqb c 34 then
                  match parse_chars s' with
                  | Some (key, r) => parse_from s' (length s' - length r)%nat stack (MColon key)
                  | None => None
                  end
                else if Z.eqb c 125 then
                  match may_close, stack with
                  | true, InObject [] :: stack' => parse_from s' O stack' (MDone (JObject []))
                  | _, _ => None
                  end
                else None
            | MColon key =>
                if Z.eqb c 58 then
                  match stack with
                  | InObject ms :: stack' => parse_from s' O (InMember ms key :: stack') (MValue false)
                  | _ => None
                  end
                else None
            | MDone v =>
                match stack with
                | InArray items :: stack' =>
                    if Z.eqb c 44 then parse_from s' O (InArray (v :: items) :: stack') (MValue false)
                    else if Z.eqb c 93
                    then parse_from s' O stack' (MDone (JArray (reverse (v :: items))))
                    else None
                | InMember ms key :: stack' =>
                    if Z.eqb c 44 then parse_from s' O (InObject ((key, v) :: ms) :: stack') (MKey false)
                    else if Z.eqb c 125
                    then parse_from s' O stack' (MDone (JObject (reverse ((key, v) :: ms))))
                    else None
                | _ => None
                end
            end
      end
  end.

(** [JSON.parse(text)]; [None] stands for the [SyntaxError] it throws. *)
Definition JSON_parse (text : jsstring) : option json :=
  parse_from text O [] (MValue false).

(** ** The provider and the module state of [geminiService.ts] *)

(** A value that was thrown: an [Error] with its [message], or anything
    else ([error instanceof Error] is false). *)
Inductive thrown : Type :=
| ErrorObject (message : jsstring)
| NotAnError.

(** How [await ai.models.generateContent(...)] ends: with a response,
    whose [text] may be [undefined], or with a rejection. *)
Inductive reply : Type :=
| Fulfilled (text : option jsstring)
| Rejected (e : thrown).

(** The client.  The model name and the generation config are constants of
    the call, so the outcome is given as a function of [contents]. *)
Record GoogleGenAI : Type := { generateContent : jsstring -> reply }.

(** [ai] as the module initialises it from [process.env.API_KEY]. *)
Definition init_ai (API_KEY : option jsstring) (client : GoogleGenAI)
  : option GoogleGenAI :=
  match API_KEY with
  | Some (_ :: _) => Some client
  | _ => None
  end.

Inductive console_arg : Type :=
| AText (s : jsstring)
| AThrown (e : thrown)
| AValue (v : json)
| ASyntaxError.

Inductive console_entry : Type :=
| ConsoleError (args : list console_arg)
| ConsoleLog (args : list console_arg).

(** The two module-level maps, together with what the outside world
    observes of a run: the prompts sent to the provider and the console,
    both oldest first.  A cached array is the very array the call returns;
    the caller, [handleAnalyze], only reads it, so it is kept here as a
    value. *)
Record state : Type := {
  responseCache : gmap jsstring (list json);
  cacheTimestamps : gmap jsstring Z;
  calls : list jsstring;
  console : list console_entry
}.

Definition initial_state : state :=
  {| responseCache := ∅; cacheTimestamps := ∅; calls := []; console := [] |}.

Definition log (entry : console_entry) (st : state) : state :=
  {| responseCache := responseCache st; cacheTimestamps := cacheTimestamps st;
     calls := calls st; console := console st ++ [entry] |}.

Definition record_call (contents : jsstring) (st : state) : state :=
  {| responseCache := responseCache st; cacheTimestamps := cacheTimestamps st;
     calls := calls st ++ [contents]; console := console st |}.

(** [responseCache.delete(key); cacheTimestamps.delete(key)] *)
Definition cache_delete (key : jsstring) (st : state) : state :=
  {| responseCache := delete key (responseCache st);
     cacheTimestamps := delete key (cacheTimestamps st);
     calls := calls st; console := console st |}.

(** [responseCache.set(key, answers); cacheTimestamps.set(key, now)] *)
Definition cache_set (key : jsstring) (answers : list json) (now : Z) (st : state)
  : state :=
  {| responseCache := <[key := answers]> (responseCache st);
     cacheTimestamps := <[key := now]> (cacheTimestamps st);
     calls := calls st; console := console st |}.

Definition CACHE_EXPIRY : Z := 5 * 60 * 1000.

(** The body of the loop of [clearExpiredCache] at one entry. *)
Definition sweep_step (now : Z) (st : state) (entry : jsstring * Z) : state :=
  let '(key, timestamp) := entry in
  if bool_decide (now - timestamp > CACHE_EXPIRY) then cache_delete key st else st.

(** [clearExpiredCache], with [now] the value of its [Date.now()].  The
    loop visits every entry of [cacheTimestamps]; the order of the visit
    does not change the outcome. *)
Definition clearExpiredCache (now : Z) (st : state) : state :=
  foldl (sweep_step now) st (map_to_list (cacheTimestamps st)).

(** ** [runQueryRetrieval] *)

Inductive completion (A : Type) : Type :=
| Returned (a : A)
| Threw (e : thrown).
Arguments Returned {A} a.
Arguments Threw {A} e.

Definition formattedQuestions (questions : list jsstring) : jsstring :=
  join [10] (imap (fun i q => toString (Z.of_nat i + 1) ++ js ". " ++ q) questions).

Definition prompt (documentText : jsstring) (questions : list jsstring) : jsstring :=
  js "
    You are an expert legal and policy analysis AI. Your task is to act as an intelligent query-retrieval system.
    Carefully and thoroughly read the following document text provided below.
    Based *only* on the information contained within this document, answer each of the user's questions.
    Ensure your answers are accurate, concise, and directly reference the information available in the document.
    Do not use any external knowledge. If an answer cannot be found in the document, state that clearly.
    Return your response as a JSON object that matches the required schema. The number of answers in the 'answers' array must exactly match the number of questions asked.

    --- DOCUMENT TEXT START ---
    " ++ documentText ++ js "
    --- DOCUMENT TEXT END ---

    --- QUESTIONS START ---
    " ++ formattedQuestions questions ++ js "
    --- QUESTIONS END ---
  ".

Definition msg_not_initialized : jsstring := js "Gemini AI client not initialized.".
Definition msg_empty_document : jsstring := js "Document text cannot be empty.".
Definition msg_no_question : jsstring := js "At least one question is required.".
Definition msg_invalid_json : jsstring := js "Invalid JSON response from Gemini API.".
Definition msg_quota : jsstring := js "API quota exceeded. Please try again later.".
Definition msg_unauthorized : jsstring :=
  js "Invalid API key. Please check your API configuration.".
Definition msg_rate_limit : jsstring :=
  js "Rate limit exceeded. Please wait a moment before trying again.".
Definition msg_generic_prefix : jsstring := js "Gemini API Error: ".
Definition msg_unknown : jsstring :=
  js "An unknown error occurred while communicating with the Gemini API.".

(** [Array.isArray(parsedResponse.answers)], giving the elements. *)
Definition answers_array (parsedResponse : json) : option (list json) :=
  match get_member (js "answers") parsedResponse with
  | Some (JArray answers) => Some answers
  | _ => None
  end.

(** The body of the [try] block once the provider call has ended with
    [r]; [now] is the value of the [Date.now()] of the cache write. *)
Definition handle_reply (cacheKey : jsstring) (now : Z) (r : reply) (st : state)
  : completion (option (list json)) * state :=
  match r with
  | Rejected e => (Threw e, st)
  | Fulfilled text =>
      match trim <$> text with
      | None | Some [] =>
          (Returned None,
           log (ConsoleError [AText (js "Gemini API returned an empty response.")]) st)
      | Some responseText =>
          match JSON_parse responseText with
          | None =>
              (Threw (ErrorObject msg_invalid_json),
               log (ConsoleError [AText (js "Failed to parse JSON response:"); ASyntaxError]) st)
          | Some parsedResponse =>
              match (if truthy parsedResponse then answers_array parsedResponse else None) with
              | Some answers => (Returned (Some answers), cache_set cacheKey answers now st)
              | None =>
                  (Returned None,
                   log (ConsoleError
                          [AText (js "Parsed response is not in the expected format:");
                           AValue parsedResponse]) st)
              end
          end
      end
  end.

(** The [catch] block: the error that is thrown in place of [error]. *)
Definition classify (error : thrown) : thrown :=
  match error with
  | ErrorObject message =>
      if includes message (js "quota") then ErrorObject msg_quota
      else if includes message (js "unauthorized") then ErrorObject msg_unauthorized
      else if includes message (js "rate limit") then ErrorObject msg_rate_limit
      else ErrorObject (msg_generic_prefix ++ message)
  | NotAnError => ErrorObject msg_unknown
  end.

Definition catch_block (r : completion (option (list json)) * state)
  : completion (option (list json)) * state :=
  match r with
  | (Threw error, st) =>
      (Threw (classify error),
       log (ConsoleError [AText (js "Error calling Gemini API:"); AThrown error]) st)
  | _ => r
  end.

(** [runQueryRetrieval(documentText, questions)] run from state [st].
    [ai] is the module's client; [now_sweep] and [now_store] are the values
    [Date.now()] gives in [clearExpiredCache] and at the cache write. *)
Definition runQueryRetrieval (ai : option GoogleGenAI) (now_sweep now_store : Z)
    (documentText : jsstring) (questions : list jsstring) (st : state)
  : completion (option (list json)) * state :=
  match ai with
  | None =>
      (Threw (ErrorObject msg_not_initialized),
       log (ConsoleError
              [AText (js "Gemini AI client is not initialized. Make sure API_KEY is set.")]) st)
  | Some client =>
      if bool_decide (trim documentText = []) then (Threw (ErrorObject msg_empty_document), st)
      else if bool_decide (length questions = 0%nat) then (Threw (ErrorObject msg_no_question), st)
      else
        let st := clearExpiredCache now_sweep st in
        let cacheKey := generateCacheKey documentText questions in
        match responseCache st !! cacheKey with
        | Some cachedResult =>
            (Returned (Some cachedResult),
             log (ConsoleLog [AText (js "Returning cached result")]) st)
        | None =>
            let contents := prompt documentText questions in
            catch_block
              (handle_reply cacheKey now_store
                 (generateContent client contents) (record_call contents st))
        end
  end.

(** ** The caller: [App] *)

Record QueryResult : Type := { question : jsstring; answer : json }.

Record ui_state : Type := {
  results : option (list QueryResult);
  isLoading : bool;
  error : option jsstring
}.

Definition sentinel : json := JString (js "No answer found.").

(** [processedQuestions]: the non-blank lines of the questions field. *)
Definition processedQuestions (questions : jsstring) : list jsstring :=
  filter (fun q => trim q ≠ []) (split 10 questions).

Definition isFormValid (isApiKeyMissing : bool) (documentText : jsstring)
    (processed : list jsstring) : bool :=
  negb isApiKeyMissing && bool_decide (trim documentText ≠ [])
  && bool_decide (0 < length processed)%nat.

(** [answers[index] || "No answer found."] *)
Definition answer_or_sentinel (answers : list json) (index : nat) : json :=
  match answers !! index with
  | Some a => if truthy a then a else sentinel
  | None => sentinel
  end.

Definition queryResults (processed : list jsstring) (answers : list json)
  : list QueryResult :=
  imap (fun index question =>
          {| question := question; answer := answer_or_sentinel answers index |})
       processed.

(** [handleAnalyze], from the click to the end of its [finally]: the
    fields of the form are [documentText] and [questions], [ui] is what
    the component showed before. *)
Definition handleAnalyze (ai : option GoogleGenAI) (isApiKeyMissing : bool)
    (now_sweep now_store : Z) (documentText questions : jsstring)
    (ui : ui_state) (st : state) : ui_state * state :=
  let processed := processedQuestions questions in
  if negb (isFormValid isApiKeyMissing documentText processed) then
    ({| results := results ui; isLoading := isLoading ui;
        error := Some (js "Please provide the document text, at least one question, and ensure the API key is configured.") |},
     st)
  else
    match runQueryRetrieval ai now_sweep now_store documentText processed st with
    | (Returned (Some answers), st') =>
        ({| results := Some (queryResults processed answers);
            isLoading := false; error := None |}, st')
    | (Returned None, st') =>
        ({| results := None; isLoading := false;
            error := Some (js "The model did not return a valid response. The document might be too complex or the query too ambiguous. Please try again with a clearer document or questions.") |},
         st')
    | (Threw e, st') =>
        let errorMessage :=
          match e with
          | ErrorObject message => message
          | NotAnError => js "An unknown error occurred."
          end in
        ({| results := None; isLoading := false;
            error := Some (js "Failed to retrieve answers. " ++ errorMessage) |},
         log (ConsoleError [AThrown e]) st')
    end.

(** ** The rest of [App] and [ResultsDisplay] *)

(** What the output section of [App] shows: the chain
    [isLoading ? ... : error ? ... : results ? ... : ...]. *)
Inductive panel : Type :=
| ShowLoader
| ShowError (message : jsstring)
| ShowResults (shown : list QueryResult)
| ShowPlaceholder.

Definition output_panel (ui : ui_state) : panel :=
  if isLoading ui then ShowLoader
  else match error ui with
       | Some (c :: message) => ShowError (c :: message)
       | _ =>
           match results ui with
           | Some shown => ShowResults shown
           | None => ShowPlaceholder
           end
       end.

(** [disabled={isLoading || !isFormValid}] of the Analyze button. *)
Definition analyze_disabled (ui : ui_state) (isApiKeyMissing : bool)
    (documentText questions : jsstring) : bool :=
  isLoading ui
  || negb (isFormValid isApiKeyMissing documentText (processedQuestions questions)).

(** The React key of a result item, [`${result.question}-${index}`], and
    the keys of the items [ResultsDisplay] renders. *)
Definition result_key (index : nat) (result : QueryResult) : jsstring :=
  question result ++ js "-" ++ toString (Z.of_nat index).

Definition ResultsDisplay_keys (shown : list QueryResult) : list jsstring :=
  imap result_key shown.

(** [DEFAULT_QUESTIONS] of [constants.ts] is built as [lines.join('\n')]. *)
Definition join_lines (lines : list jsstring) : jsstring := join [10] lines.

Definition DEFAULT_QUESTION_LINES : list jsstring :=
  [ js "What is the grace period for premium payment under the National Parivar Mediclaim Plus Policy?";
    js "What is the waiting period for pre-existing diseases (PED) to be covered?";
    js "Does this policy cover maternity expenses, and what are the conditions?";
    js "What is the waiting period for cataract surgery?";
    js "Are the medical expenses for an organ donor covered under this policy?";
    js "What is the No Claim Discount (NCD) offered in this policy?";
    js "Is there a benefit for preventive health check-ups?";
    js "How does the policy define a 'Hospital'?";
    js "What is the extent of coverage for AYUSH treatments?";
    js "Are there any sub-limits on room rent and ICU charges for Plan A?" ].

Definition DEFAULT_QUESTIONS : jsstring := join_lines DEFAULT_QUESTION_LINES.

(** ** The service before caching

    The earlier [runQueryRetrieval]: the same prompt and the same shape
    check, with no input validation and no cache.  [response.text.trim()]
    throws a [TypeError] when [text] is [undefined], and [JSON.parse] is
    not wrapped, so its [SyntaxError] reaches the [catch] block; the
    messages of these two errors are the engine's and are parameters
    here. *)
Module Uncached.

Record engine : Type := {
  TypeError_message : jsstring;
  SyntaxError_message : jsstring -> jsstring
}.

Definition try_block (eng : engine) (r : reply) (st : state)
  : completion (option (list json)) * state :=
  match r with
  | Rejected e => (Threw e, st)
  | Fulfilled None => (Threw (ErrorObject (TypeError_message eng)), st)
  | Fulfilled (Some text) =>
      match trim text with
      | [] =>
          (Returned None,
           log (ConsoleError [AText (js "Gemini API returned an empty response.")]) st)
      | responseText =>
          match JSON_parse responseText with
          | None => (Threw (ErrorObject (SyntaxError_message eng responseText)), st)
          | Some parsedResponse =>
              match (if truthy parsedResponse then answers_array parsedResponse else None) with
              | Some answers => (Returned (Some answers), st)
              | None =>
                  (Returned None,
                   log (ConsoleError
                          [AText (js "Parsed response is not in the expected format:");
                           AValue parsedResponse]) st)
              end
          end
      end
  end.

Definition catch_block (r : completion (option (list json)) * state)
  : completion (option (list json)) * state :=
  match r with
  | (Threw error, st) =>
      (Threw (match error with
              | ErrorObject message => ErrorObject (msg_generic_prefix ++ message)
              | NotAnError => ErrorObject msg_unknown
              end),
       log (ConsoleError [AText (js "Error calling Gemini API:"); AThrown error]) st)
  | _ => r
  end.

Definition runQueryRetrieval (eng : engine) (ai : option GoogleGenAI)
    (documentText : jsstring) (questions : list jsstring) (st : state)
  : completion (option (list json)) * state :=
  match ai with
  | None =>
      (Threw (ErrorObject msg_not_initialized),
       log (ConsoleError
              [AText (js "Gemini AI client is not initialized. Make sure API_KEY is set.")]) st)
  | Some client =>
      let contents := prompt documentText questions in
      catch_block (try_block eng (generateContent client contents) (record_call contents st))
  end.

End Uncached.

(** ** Notions used by the statements *)

Definition int32 (x : Z) : Prop := - 2 ^ 31 <= x < 2 ^ 31.

(** The states the module can be in.  It starts in [initial_state], and
    only [runQueryRetrieval] changes it, called directly or through
    [handleAnalyze], whatever the clock and the provider do.  A call
    [await]s its provider call, so other calls may run in between: the
    part of a call up to the [await] and the part after it are steps of
    their own. *)
Inductive reachable : state -> Prop :=
| reachable_initial : reachable initial_state
| reachable_run ai now_sweep now_store documentText questions st :
    reachable st ->
    reachable (runQueryRetrieval ai now_sweep now_store documentText questions st).2
| reachable_analyze ai missing now_sweep now_store documentText questions ui st :
    reachable st ->
    reachable (handleAnalyze ai missing now_sweep now_store documentText questions ui st).2
| reachable_await now_sweep contents st :
    reachable st ->
    reachable (record_call contents (clearExpiredCache now_sweep st))
| reachable_resume cacheKey now_store r st :
    reachable st ->
    reachable (catch_block (handle_reply cacheKey now_store r st)).2.

(** An entry is expired at [now] when its age exceeds [CACHE_EXPIRY]. *)
Definition expired (now timestamp : Z) : Prop := now - timestamp > CACHE_EXPIRY.

(** The keys the sweep deletes, given the entries it visits. *)
Definition swept (now : Z) (entries : list (jsstring * Z)) (key : jsstring) : Prop :=
  exists timestamp, (key, timestamp) ∈ entries /\ expired now timestamp.

(** Every cached answer sequence has a creation timestamp. *)
Definition timestamped (st : state) : Prop :=
  forall key, is_Some (responseCache st !! key) -> is_Some (cacheTimestamps st !! key).

(** Every creation timestamp belongs to a cached answer sequence. *)
Definition stamped_cached (st : state) : Prop :=
  forall key, is_Some (cacheTimestamps st !! key) -> is_Some (responseCache st !! key).

(** The hash without the 32-bit wrap-around: the polynomial in 31 whose
    coefficients are the code units. *)
Definition polynomial31 (s : jsstring) : Z := foldl (fun acc c => 31 * acc + c) 0 s.

(** ** Sample inputs for the examples *)

(** Sample providers for the examples: one that answers with a fixed
    text, one that fails with a fixed message. *)
Definition answering (text : jsstring) : GoogleGenAI :=
  {| generateContent := fun _ => Fulfilled (Some text) |}.

Definition failing (message : jsstring) : GoogleGenAI :=
  {| generateContent := fun _ => Rejected (ErrorObject message) |}.

Definition sample_document : jsstring := js "Grace period is thirty days.".
Definition sample_questions : list jsstring := [js "What is the grace period?"].
Definition sample_response : jsstring :=
  jsq "{'answers':['The grace period is thirty days.']}".

(** The state after a first successful call at time [1000], stored at
    time [1500]. *)
Definition sample_state : state :=
  (runQueryRetrieval (Some (answering sample_response)) 1000 1500
     sample_document sample_questions initial_state).2.

(** An engine for the examples of the earlier service. *)
Definition sample_engine : Uncached.engine :=
  {| Uncached.TypeError_message :=
       js "Cannot read properties of undefined (reading 'trim')";
     Uncached.SyntaxError_message := fun _ => js "Unexpected token" |}.

(** * Properties *)

(** ** Arithmetic of the fingerprint *)

Lemma toInt32_range x : int32 (toInt32 x).
Proof.
  unfold int32, toInt32.
  pose proof (Z.mod_pos_bound (x + 2 ^ 31) (2 ^ 32) ltac:(lia)). lia.
Qed.

Lemma toInt32_shift x k : toInt32 (x + k * 2 ^ 32) = toInt32 x.
Proof.
  unfold toInt32.
  replace (x + k * 2 ^ 32 + 2 ^ 31) with (x + 2 ^ 31 + k * 2 ^ 32) by lia.
  by rewrite Z.mod_add.
Qed.

Lemma toInt32_decompose x : exists k, toInt32 x = x + k * 2 ^ 32.
Proof.
  exists (- ((x + 2 ^ 31) / 2 ^ 32)). unfold toInt32.
  rewrite Z.mod_eq by lia. lia.
Qed.

Lemma toInt32_eq_inv x y : toInt32 x = toInt32 y -> exists k, x - y = k * 2 ^ 32.
Proof.
  destruct (toInt32_decompose x) as [a ->], (toInt32_decompose y) as [b ->].
  intros H. exists (b - a). lia.
Qed.

Lemma toInt32_id x : int32 x -> toInt32 x = x.
Proof.
  unfold int32, toInt32. intros H.
  rewrite Z.mod_small by lia. lia.
Qed.

(** The loop body computes [31 * hash + char] modulo [2^32]. *)
Lemma hash_step_spec hash char : hash_step hash char = toInt32 (31 * hash + char).
Proof.
  unfold hash_step, and32, shl32.
  rewrite Z.land_diag.
  replace (5 mod 32) with 5 by reflexivity.
  rewrite Z.shiftl_mul_pow2 by lia.
  destruct (toInt32_decompose hash) as [a ->].
  destruct (toInt32_decompose ((hash + a * 2 ^ 32) * 2 ^ 5)) as [b ->].
  destruct (toInt32_decompose ((hash + a * 2 ^ 32) * 2 ^ 5 + b * 2 ^ 32 - hash + char)) as [c ->].
  replace ((hash + a * 2 ^ 32) * 2 ^ 5 + b * 2 ^ 32 - hash + char + c * 2 ^ 32)
    with (31 * hash + char + (a * 32 + b + c) * 2 ^ 32) by lia.
  apply toInt32_shift.
Qed.

Lemma hash_step_range hash char : int32 (hash_step hash char).
Proof. rewrite hash_step_spec. apply toInt32_range. Qed.

Lemma hash_loop_range hash s : int32 hash -> int32 (hash_loop hash s).
Proof.
  revert hash. induction s as [|c s IH]; intros hash Hh; [done|].
  apply IH, hash_step_range.
Qed.

Lemma hash_loop_app hash s t :
  hash_loop hash (s ++ t) = hash_loop (hash_loop hash s) t.
Proof. apply foldl_app. Qed.

(** Two different code units take the same hash to different hashes. *)
Lemma hash_step_char_inj hash c c' :
  code_unit c -> code_unit c' -> hash_step hash c = hash_step hash c' -> c = c'.
Proof.
  unfold code_unit. intros Hc Hc'. rewrite !hash_step_spec.
  intros [k Hk]%toInt32_eq_inv. nia.
Qed.

(** [31] is a unit modulo [2^32], so a round is injective in the hash. *)
Lemma hash_step_hash_inj h h' c :
  int32 h -> int32 h' -> hash_step h c = hash_step h' c -> h = h'.
Proof.
  unfold int32. intros Hh Hh'. rewrite !hash_step_spec.
  intros [k Hk]%toInt32_eq_inv.
  assert (h - h' = (3186588639 * k - 23 * (h - h')) * 2 ^ 32) as Hd by lia.
  nia.
Qed.

Lemma hash_loop_hash_inj s h h' :
  int32 h -> int32 h' -> hash_loop h s = hash_loop h' s -> h = h'.
Proof.
  revert h h'. induction s as [|c s IH]; intros h h' Hh Hh' Heq; [done|].
  cbn in Heq. apply IH in Heq; [|apply hash_step_range..].
  by eapply hash_step_hash_inj.
Qed.

Lemma js_inj s t : js s = js t -> s = t.
Proof.
  revert t. induction s as [|a s IH]; intros [|b t]; cbn; try done.
  intros [= Hab Hst]. f_equal; [|by apply IH].
  apply N2Z.inj in Hab.
  rewrite <- (ascii_N_embedding a), <- (ascii_N_embedding b). by rewrite Hab.
Qed.

Lemma toString_inj n m : toString n = toString m -> n = m.
Proof. unfold toString. intros H%js_inj. by apply (inj pretty) in H. Qed.

(** ** C1: the fingerprint *)

(** The key of document [a] with questions [b] and [c]: the hash of [ab||c]. *)
Example generateCacheKey_abc : generateCacheKey (js "a") [js "b"; js "c"] = js "92624162".
Proof. vm_compute. reflexivity. Qed.

Lemma generateCacheKey_change_char pre post c c' questions :
  code_unit c -> code_unit c' -> c <> c' ->
  generateCacheKey (pre ++ c :: post) questions
  <> generateCacheKey (pre ++ c' :: post) questions.
Proof.
  intros Hc Hc' Hne Hkey. apply Hne.
  unfold generateCacheKey in Hkey. apply toString_inj in Hkey.
  rewrite <- !(assoc_L (++)), !hash_loop_app in Hkey. cbn [app] in Hkey.
  change (hash_loop ?h (?x :: ?l)) with (hash_loop (hash_step h x) l) in Hkey.
  apply hash_loop_hash_inj in Hkey; [|apply hash_loop_range, hash_step_range..].
  apply hash_loop_hash_inj in Hkey; [|apply hash_step_range..].
  by eapply hash_step_char_inj.
Qed.

(** Replacing one code unit anywhere in the hashed text changes the hash. *)
Lemma hash_loop_change_unit before after c c' :
  code_unit c -> code_unit c' ->
  hash_loop 0 (before ++ c :: after) = hash_loop 0 (before ++ c' :: after) -> c = c'.
Proof.
  intros Hc Hc' Heq. rewrite !hash_loop_app in Heq.
  change (hash_loop ?h (?x :: ?l)) with (hash_loop (hash_step h x) l) in Heq.
  apply hash_loop_hash_inj in Heq; [|apply hash_step_range..].
  by eapply hash_step_char_inj.
Qed.

(** A question sits in the joined text between two parts that the other
    questions fix. *)
Lemma join_hole sep (before after : list jsstring) :
  exists left right, forall q, join sep (before ++ q :: after) = left ++ q ++ right.
Proof.
  induction before as [|p before (left & right & IH)].
  - exists [], (match after with [] => [] | _ => sep ++ join sep after end).
    intros q. destruct after; cbn; [by rewrite (right_id_L [] (++))|done].
  - exists (p ++ sep ++ left), right. intros q. specialize (IH q).
    cbn [app]. destruct (before ++ q :: after) as [|p' rest] eqn:Hrest.
    { by destruct before. }
    change (join sep (p :: p' :: rest)) with (p ++ sep ++ join sep (p' :: rest)).
    rewrite IH. by rewrite <- !(assoc_L (++)).
Qed.

Lemma generateCacheKey_change_question_char documentText before after pre post c c' :
  code_unit c -> code_unit c' -> c <> c' ->
  generateCacheKey documentText (before ++ (pre ++ c :: post) :: after)
  <> generateCacheKey documentText (before ++ (pre ++ c' :: post) :: after).
Proof.
  intros Hc Hc' Hne Hkey. apply Hne.
  unfold generateCacheKey in Hkey. apply toString_inj in Hkey.
  destruct (join_hole (js "||") before after) as (left & right & Hjoin).
  rewrite !Hjoin in Hkey.
  replace (documentText ++ left ++ (pre ++ c :: post) ++ right)
    with ((documentText ++ left ++ pre) ++ c :: (post ++ right)) in Hkey
    by (by rewrite <- !(assoc_L (++))).
  replace (documentText ++ left ++ (pre ++ c' :: post) ++ right)
    with ((documentText ++ left ++ pre) ++ c' :: (post ++ right)) in Hkey
    by (by rewrite <- !(assoc_L (++))).
  by eapply hash_loop_change_unit.
Qed.

(** C1, the claim as stated fails, in both of the cases it names.  Two
    question lists that differ only in the order of their questions get
    the same key for the same document, because ["Aa"] and ["BB"] hash
    alike.  And two documents that differ in one character get the same
    key when the character lies outside the Basic Multilingual Plane, where
    a character is two code units: U+1F600 is [D83D DE00] and U+1F9E1 is
    [D83E DDE1], and [31 * 1 - 31 = 0]. *)
Lemma generateCacheKey_collisions :
  (let documentText := js "Grace period is thirty days." in
   let questions := [js "Aa?"; js "BB?"] in
   let reordered := [js "BB?"; js "Aa?"] in
   questions <> reordered
   /\ generateCacheKey documentText questions = generateCacheKey documentText reordered)
  /\
  (let documentText := fun cp => js "Mood: " ++ utf16 cp ++ js " today." in
   let questions := [js "What is the mood?"] in
   utf16 128512 = [55357; 56832] /\ utf16 129505 = [55358; 56801]
   /\ documentText 128512 <> documentText 129505
   /\ generateCacheKey (documentText 128512) questions
      = generateCacheKey (documentText 129505) questions).
Proof.
  split; [split; [discriminate | vm_compute; reflexivity]|].
  cbn zeta. split; [reflexivity|]. split; [reflexivity|].
  split; [vm_compute; discriminate | vm_compute; reflexivity].
Qed.

(** C1 (amended): [generateCacheKey] is a function of the document text
    and the ordered question list, so identical inputs give the identical
    key; and replacing one UTF-16 code unit (a character of the Basic
    Multilingual Plane) by a different one, either in the document text or
    in one of the questions, everything else unchanged, gives a different
    key. *)
Theorem generateCacheKey_deterministic_char_sensitive
    (documentText documentText' : jsstring) (questions questions' : list jsstring) :
  (documentText = documentText' -> questions = questions' ->
   generateCacheKey documentText questions = generateCacheKey documentText' questions')
  /\
  (forall pre post c c',
     documentText = pre ++ c :: post -> documentText' = pre ++ c' :: post ->
     questions = questions' ->
     code_unit c -> code_unit c' -> c <> c' ->
     generateCacheKey documentText questions <> generateCacheKey documentText' questions')
  /\
  (forall before after pre post c c',
     documentText = documentText' ->
     questions = before ++ (pre ++ c :: post) :: after ->
     questions' = before ++ (pre ++ c' :: post) :: after ->
     code_unit c -> code_unit c' -> c <> c' ->
     generateCacheKey documentText questions <> generateCacheKey documentText' questions').
Proof.
  split; [|split].
  - by intros -> ->.
  - intros pre post c c' -> -> <- Hc Hc' Hne.
    by apply generateCacheKey_change_char.
  - intros before after pre post c c' <- -> -> Hc Hc' Hne.
    by apply generateCacheKey_change_question_char.
Qed.

Lemma generateCacheKey_deterministic_char_sensitive_witness :
  let questions := [js "Is dental care covered?"; js "What is the grace period?"] in
  generateCacheKey (js "Grace period is thirty days.") questions
  = generateCacheKey (js "Grace period is thirty days.") questions
  /\ generateCacheKey (js "Grace period is thirty days.") questions
     <> generateCacheKey (js "Grace period is thirty-days.") questions
  /\ generateCacheKey (js "Grace period is thirty days.") questions
     <> generateCacheKey (js "Grace period is thirty days.")
          [js "Is dental care covered?"; js "What is the grace period!"].
Proof.
  intros questions. split; [|split].
  - apply (proj1 (generateCacheKey_deterministic_char_sensitive
                    (js "Grace period is thirty days.") (js "Grace period is thirty days.")
                    questions questions)); reflexivity.
  - apply (proj1 (proj2 (generateCacheKey_deterministic_char_sensitive
                    (js "Grace period is thirty days.") (js "Grace period is thirty-days.")
                    questions questions))
             (js "Grace period is thirty") (js "days.") 32 45);
      [reflexivity | reflexivity | reflexivity
      | unfold code_unit; lia | unfold code_unit; lia | lia].
  - apply (proj2 (proj2 (generateCacheKey_deterministic_char_sensitive
                    (js "Grace period is thirty days.") (js "Grace period is thirty days.")
                    questions
                    [js "Is dental care covered?"; js "What is the grace period!"]))
             [js "Is dental care covered?"] [] (js "What is the grace period") [] 63 33);
      [reflexivity | reflexivity | reflexivity
      | unfold code_unit; lia | unfold code_unit; lia | lia].
Defined.

(** ** The expiry sweep *)

Lemma swept_nil now key : ~ swept now [] key.
Proof. intros (ts & Hin & _). by apply elem_of_nil in Hin. Qed.

Lemma swept_cons now k ts entries key :
  swept now ((k, ts) :: entries) key
  <-> (key = k /\ expired now ts) \/ swept now entries key.
Proof.
  unfold swept. split.
  - intros (t & Hin & Hexp). apply elem_of_cons in Hin as [[= -> ->]|Hin]; eauto.
  - intros [[-> Hexp]|(t & Hin & Hexp)].
    + exists ts. split; [left|done].
    + exists t. split; [by right|done].
Qed.

Lemma swept_dec now entries key : swept now entries key \/ ~ swept now entries key.
Proof.
  induction entries as [|[k ts] entries IH].
  - right. apply swept_nil.
  - destruct IH as [IH|IH]; [left; apply swept_cons; by right|].
    destruct (decide (key = k)) as [->|Hk];
      [destruct (Z_gt_dec (now - ts) CACHE_EXPIRY) as [Hexp|Hexp]|].
    + left. apply swept_cons. by left.
    + right. intros [[_ ?]|?]%swept_cons; done.
    + right. intros [[? _]|?]%swept_cons; done.
Qed.

Lemma foldl_sweep_frame now entries st :
  calls (foldl (sweep_step now) st entries) = calls st
  /\ console (foldl (sweep_step now) st entries) = console st.
Proof.
  revert st. induction entries as [|[k ts] entries IH]; intros st; [done|].
  cbn [foldl]. destruct (IH (sweep_step now st (k, ts))) as [-> ->].
  unfold sweep_step. by case_bool_decide.
Qed.

Lemma foldl_sweep_lookup now entries st key :
  (swept now entries key ->
   responseCache (foldl (sweep_step now) st entries) !! key = None
   /\ cacheTimestamps (foldl (sweep_step now) st entries) !! key = None)
  /\
  (~ swept now entries key ->
   responseCache (foldl (sweep_step now) st entries) !! key = responseCache st !! key
   /\ cacheTimestamps (foldl (sweep_step now) st entries) !! key = cacheTimestamps st !! key).
Proof.
  revert st. induction entries as [|[k ts] entries IH]; intros st.
  { split; [by intros ?%swept_nil | done]. }
  cbn [foldl]. destruct (IH (sweep_step now st (k, ts))) as [IHin IHout].
  destruct (swept_dec now entries key) as [Hrest|Hrest].
  - split; [intros _; by apply IHin|].
    intros Hn. destruct Hn. apply swept_cons. by right.
  - destruct (IHout Hrest) as [-> ->]. unfold sweep_step.
    split.
    + intros [[-> Hexp]|?]%swept_cons; [|done].
      rewrite bool_decide_eq_true_2 by done. cbn.
      by rewrite !lookup_delete_eq.
    + intros Hn. case_bool_decide as Hexp; [|done]. cbn.
      assert (key <> k) as Hne.
      { intros ->. apply Hn, swept_cons. by left. }
      by rewrite !lookup_delete_ne.
Qed.

Lemma swept_map_to_list now st key :
  swept now (map_to_list (cacheTimestamps st)) key
  <-> exists timestamp, cacheTimestamps st !! key = Some timestamp /\ expired now timestamp.
Proof.
  unfold swept. split; intros (ts & H & Hexp); exists ts; split; try done;
    by apply elem_of_map_to_list.
Qed.

Lemma clearExpiredCache_frame now st :
  calls (clearExpiredCache now st) = calls st
  /\ console (clearExpiredCache now st) = console st.
Proof. apply foldl_sweep_frame. Qed.

(** An expired entry is gone from both maps after the sweep. *)
Lemma clearExpiredCache_expired now st key timestamp :
  cacheTimestamps st !! key = Some timestamp -> expired now timestamp ->
  responseCache (clearExpiredCache now st) !! key = None
  /\ cacheTimestamps (clearExpiredCache now st) !! key = None.
Proof.
  intros Hts Hexp. apply foldl_sweep_lookup, swept_map_to_list. eauto.
Qed.

(** Any other key is left as it was. *)
Lemma clearExpiredCache_kept now st key :
  (forall timestamp, cacheTimestamps st !! key = Some timestamp -> ~ expired now timestamp) ->
  responseCache (clearExpiredCache now st) !! key = responseCache st !! key
  /\ cacheTimestamps (clearExpiredCache now st) !! key = cacheTimestamps st !! key.
Proof.
  intros Hfresh. apply foldl_sweep_lookup.
  intros (ts & Hts & Hexp)%swept_map_to_list. by eapply Hfresh.
Qed.

(** What a lookup after the sweep finds was there before, and is not
    expired if it has a timestamp. *)
Lemma clearExpiredCache_lookup_Some now st key answers :
  responseCache (clearExpiredCache now st) !! key = Some answers ->
  responseCache st !! key = Some answers
  /\ forall timestamp, cacheTimestamps st !! key = Some timestamp -> ~ expired now timestamp.
Proof.
  intros Hget.
  destruct (swept_dec now (map_to_list (cacheTimestamps st)) key) as [Hs|Hs].
  - apply (foldl_sweep_lookup now _ st key) in Hs as [Hnone _].
    unfold clearExpiredCache in Hget. congruence.
  - pose proof (proj2 (foldl_sweep_lookup now _ st key) Hs) as [Hrc _].
    unfold clearExpiredCache in Hget. split; [congruence|].
    intros ts Hts Hexp. apply Hs, swept_map_to_list. eauto.
Qed.

Lemma clearExpiredCache_lookup_None now st key :
  responseCache st !! key = None ->
  responseCache (clearExpiredCache now st) !! key = None.
Proof.
  intros Hnone.
  destruct (responseCache (clearExpiredCache now st) !! key) as [a|] eqn:Hget; [|done].
  apply clearExpiredCache_lookup_Some in Hget as [Hget _]. congruence.
Qed.

(** ** The invariant of the two maps *)

Lemma timestamped_clearExpiredCache now st :
  timestamped st -> timestamped (clearExpiredCache now st).
Proof.
  intros Hinv key [a Ha].
  pose proof (clearExpiredCache_lookup_Some _ _ _ _ Ha) as [Hget Hfresh].
  destruct (Hinv key) as [ts Hts]; [eauto|].
  destruct (clearExpiredCache_kept now st key) as [_ ->]; [|eauto].
  intros ts' Hts'. by apply Hfresh.
Qed.

Lemma timestamped_cache_set key answers now st :
  timestamped st -> timestamped (cache_set key answers now st).
Proof.
  intros Hinv k. cbn. destruct (decide (key = k)) as [->|Hne].
  - rewrite !lookup_insert_eq. eauto.
  - rewrite !lookup_insert_ne by done. apply Hinv.
Qed.

Lemma timestamped_handle_reply key now r st :
  timestamped st -> timestamped (handle_reply key now r st).2.
Proof.
  intros Hinv. unfold handle_reply.
  repeat case_match; cbn; try done. by apply timestamped_cache_set.
Qed.

Lemma timestamped_catch_block r :
  timestamped r.2 -> timestamped (catch_block r).2.
Proof. destruct r as [[a|e] st]; done. Qed.

Lemma timestamped_runQueryRetrieval ai now_sweep now_store documentText questions st :
  timestamped st ->
  timestamped (runQueryRetrieval ai now_sweep now_store documentText questions st).2.
Proof.
  intros Hinv. unfold runQueryRetrieval.
  destruct ai as [client|]; [|done].
  repeat case_bool_decide; try done.
  pose proof (timestamped_clearExpiredCache now_sweep st Hinv) as Hsw.
  case_match; [done|].
  by apply timestamped_catch_block, timestamped_handle_reply.
Qed.

Lemma timestamped_handleAnalyze ai missing now_sweep now_store documentText questions ui st :
  timestamped st ->
  timestamped (handleAnalyze ai missing now_sweep now_store documentText questions ui st).2.
Proof.
  intros Hinv. unfold handleAnalyze. case_match; [done|].
  pose proof (timestamped_runQueryRetrieval ai now_sweep now_store documentText
                (processedQuestions questions) st Hinv) as Hrun.
  destruct (runQueryRetrieval _ _ _ _ _ _) as [[[a|]|e] st']; done.
Qed.

Lemma reachable_timestamped st : reachable st -> timestamped st.
Proof.
  induction 1 as [| | | |].
  - intros key [a Ha]. cbn in Ha. by rewrite lookup_empty in Ha.
  - by apply timestamped_runQueryRetrieval.
  - by apply timestamped_handleAnalyze.
  - by apply (timestamped_clearExpiredCache now_sweep).
  - by apply timestamped_catch_block, timestamped_handle_reply.
Qed.

(** ** The paths through [runQueryRetrieval] *)

(** With a client and valid input, the call sweeps, looks the key up, and
    either returns the cached sequence or makes the outbound call. *)
Lemma runQueryRetrieval_valid client now_sweep now_store documentText questions st :
  trim documentText <> [] -> questions <> [] ->
  runQueryRetrieval (Some client) now_sweep now_store documentText questions st
  = match responseCache (clearExpiredCache now_sweep st)
          !! generateCacheKey documentText questions with
    | Some cachedResult =>
        (Returned (Some cachedResult),
         log (ConsoleLog [AText (js "Returning cached result")])
           (clearExpiredCache now_sweep st))
    | None =>
        catch_block
          (handle_reply (generateCacheKey documentText questions) now_store
             (generateContent client (prompt documentText questions))
             (record_call (prompt documentText questions)
                (clearExpiredCache now_sweep st)))
    end.
Proof.
  intros Hdoc Hqs. unfold runQueryRetrieval.
  rewrite bool_decide_eq_false_2 by done.
  rewrite bool_decide_eq_false_2; [done|]. by destruct questions.
Qed.

(** The outbound part never touches the log of provider calls. *)
Lemma outbound_calls key now r st :
  calls (catch_block (handle_reply key now r st)).2 = calls st.
Proof. unfold handle_reply. repeat case_match; done. Qed.

(** When it returns answers, it has stored exactly them, and nothing else
    changed. *)
Lemma outbound_success key now r st answers :
  (catch_block (handle_reply key now r st)).1 = Returned (Some answers) ->
  (catch_block (handle_reply key now r st)).2 = cache_set key answers now st.
Proof.
  unfold handle_reply. repeat case_match; cbn; try done. by intros [= ->].
Qed.

(** When it does not, the two maps are as they were. *)
Lemma outbound_failure key now r st :
  (forall answers, (catch_block (handle_reply key now r st)).1 <> Returned (Some answers)) ->
  responseCache (catch_block (handle_reply key now r st)).2 = responseCache st
  /\ cacheTimestamps (catch_block (handle_reply key now r st)).2 = cacheTimestamps st.
Proof.
  unfold handle_reply. repeat case_match; cbn; try done.
  intros Hfail. by edestruct Hfail.
Qed.

Lemma calls_grew_ne (l : list jsstring) p : l <> l ++ [p].
Proof. intros H. apply (f_equal length) in H. rewrite length_app in H. cbn in H. lia. Qed.

(** A call that made no outbound call and returned answers served them
    from the cache; one that made an outbound call found no entry. *)
Lemma runQueryRetrieval_cases client now_sweep now_store documentText questions st :
  trim documentText <> [] -> questions <> [] ->
  let key := generateCacheKey documentText questions in
  let swept_st := clearExpiredCache now_sweep st in
  let run := runQueryRetrieval (Some client) now_sweep now_store documentText questions st in
  (exists cached, responseCache swept_st !! key = Some cached
     /\ run.1 = Returned (Some cached) /\ calls run.2 = calls st
     /\ responseCache run.2 = responseCache swept_st
     /\ cacheTimestamps run.2 = cacheTimestamps swept_st)
  \/ (responseCache swept_st !! key = None
      /\ calls run.2 = calls st ++ [prompt documentText questions]
      /\ run = catch_block
                 (handle_reply key now_store
                    (generateContent client (prompt documentText questions))
                    (record_call (prompt documentText questions) swept_st))).
Proof.
  intros Hdoc Hqs key swept_st run. subst run.
  rewrite runQueryRetrieval_valid by done. fold key swept_st.
  destruct (responseCache swept_st !! key) as [cached|] eqn:Hget.
  - left. exists cached. cbn. repeat split; try done.
    apply clearExpiredCache_frame.
  - right. repeat split; try done.
    rewrite outbound_calls. cbn. f_equal. apply clearExpiredCache_frame.
Qed.

Lemma runQueryRetrieval_invalid client now_sweep now_store documentText questions st :
  trim documentText = [] \/ questions = [] ->
  exists message,
    runQueryRetrieval (Some client) now_sweep now_store documentText questions st
    = (Threw (ErrorObject message), st).
Proof.
  intros Hbad. unfold runQueryRetrieval.
  case_bool_decide; [eauto|].
  destruct Hbad as [?| ->]; [done|]. cbn. eauto.
Qed.

Lemma runQueryRetrieval_valid_inputs client now_sweep now_store documentText questions st :
  let run := runQueryRetrieval (Some client) now_sweep now_store documentText questions st in
  (exists result, run.1 = Returned result)
  \/ calls run.2 = calls st ++ [prompt documentText questions] ->
  trim documentText <> [] /\ questions <> [].
Proof.
  intros run Hrun.
  destruct (decide (trim documentText = [])) as [Hdoc|Hdoc];
    [|destruct (decide (questions = [])) as [Hqs|Hqs]; [|done]].
  all: edestruct (runQueryRetrieval_invalid client now_sweep now_store documentText questions st)
         as [message Heq]; [eauto|].
  all: subst run; rewrite Heq in Hrun; cbn in Hrun.
  all: destruct Hrun as [[result [=]]|Hcalls]; by apply calls_grew_ne in Hcalls.
Qed.

(** ** C2: freshness *)

(** C2: in any state the module can reach, a call of [runQueryRetrieval]
    that is served from the cache (it returns answers without an outbound
    call) returns an entry of age at most [CACHE_EXPIRY] = 5 minutes at the
    time of the sweep; and when the entry under the request's key is older
    than that, the call makes a fresh outbound request. *)
Theorem cache_never_serves_stale
    client now_sweep now_store documentText questions st :
  reachable st -> trim documentText <> [] -> questions <> [] ->
  let key := generateCacheKey documentText questions in
  let run := runQueryRetrieval (Some client) now_sweep now_store documentText questions st in
  (forall answers,
     run.1 = Returned (Some answers) -> calls run.2 = calls st ->
     exists timestamp,
       cacheTimestamps st !! key = Some timestamp
       /\ now_sweep - timestamp <= CACHE_EXPIRY
       /\ responseCache st !! key = Some answers)
  /\
  (forall timestamp,
     cacheTimestamps st !! key = Some timestamp ->
     now_sweep - timestamp > CACHE_EXPIRY ->
     calls run.2 = calls st ++ [prompt documentText questions]).
Proof.
  intros Hreach Hdoc Hqs key run.
  pose proof (runQueryRetrieval_cases client now_sweep now_store _ _ st Hdoc Hqs) as Hcases.
  cbn zeta in Hcases. fold key run in Hcases. split.
  - intros answers Hret Hcalls.
    destruct Hcases as [(cached & Hget & Hres & _)|(_ & Hgrew & _)];
      [|rewrite Hgrew in Hcalls; symmetry in Hcalls; by apply calls_grew_ne in Hcalls].
    assert (cached = answers) as -> by congruence.
    apply clearExpiredCache_lookup_Some in Hget as [Hold Hfresh].
    destruct (reachable_timestamped st Hreach key) as [ts Hts]; [eauto|].
    exists ts. repeat split; try done.
    specialize (Hfresh ts Hts). unfold expired in Hfresh. lia.
  - intros ts Hts Hexp.
    destruct Hcases as [(cached & Hget & _)|(_ & Hgrew & _)]; [|done].
    destruct (clearExpiredCache_expired now_sweep st key ts Hts Hexp) as [Hnone _].
    congruence.
Qed.

Lemma cache_never_serves_stale_witness :
  let key := generateCacheKey sample_document sample_questions in
  let run := runQueryRetrieval (Some (failing (js "offline"))) 2000 2500
               sample_document sample_questions sample_state in
  (forall answers,
     run.1 = Returned (Some answers) -> calls run.2 = calls sample_state ->
     exists timestamp,
       cacheTimestamps sample_state !! key = Some timestamp
       /\ 2000 - timestamp <= CACHE_EXPIRY
       /\ responseCache sample_state !! key = Some answers)
  /\
  (forall timestamp,
     cacheTimestamps sample_state !! key = Some timestamp ->
     2000 - timestamp > CACHE_EXPIRY ->
     calls run.2 = calls sample_state ++ [prompt sample_document sample_questions]).
Proof.
  apply (cache_never_serves_stale (failing (js "offline")) 2000 2500
           sample_document sample_questions sample_state).
  - apply reachable_run, reachable_initial.
  - vm_compute. discriminate.
  - discriminate.
Defined.

(** After the TTL the same entry is swept and the provider is asked again. *)
Example stale_entry_recomputed :
  let run := runQueryRetrieval (Some (answering sample_response)) 301501 301600
               sample_document sample_questions sample_state in
  length (calls sample_state) = 1%nat /\ length (calls run.2) = 2%nat
  /\ cacheTimestamps run.2 !! generateCacheKey sample_document sample_questions = Some 301600.
Proof. vm_compute. done. Qed.

(** ** C3: a repeated call is a cache hit *)

(** C3: when a first call made its outbound call, got answers and so
    stored them at time [now_store1], a second call with the same document
    and questions whose sweep happens within [CACHE_EXPIRY] of that time
    makes no outbound call and returns the same answers, whatever the
    provider would have said; the two calls made one outbound call. *)
Theorem repeated_call_served_from_cache
    client1 client2 now_sweep1 now_store1 now_sweep2 now_store2
    documentText questions st answers :
  let run1 := runQueryRetrieval (Some client1) now_sweep1 now_store1
                documentText questions st in
  let run2 := runQueryRetrieval (Some client2) now_sweep2 now_store2
                documentText questions run1.2 in
  run1.1 = Returned (Some answers) ->
  calls run1.2 = calls st ++ [prompt documentText questions] ->
  now_sweep2 - now_store1 <= CACHE_EXPIRY ->
  run2.1 = Returned (Some answers)
  /\ calls run2.2 = calls run1.2
  /\ length (calls run2.2) = S (length (calls st)).
Proof.
  intros run1 run2 Hret Hgrew Hfresh.
  destruct (runQueryRetrieval_valid_inputs client1 now_sweep1 now_store1
              documentText questions st) as [Hdoc Hqs]; [by right|].
  pose proof (runQueryRetrieval_cases client1 now_sweep1 now_store1 _ _ st Hdoc Hqs) as Hc.
  cbn zeta in Hc. fold run1 in Hc.
  destruct Hc as [(cached & _ & _ & Hsame & _)|(_ & _ & Hrun1)];
    [rewrite Hsame in Hgrew; by apply calls_grew_ne in Hgrew|].
  assert (run1.2 = cache_set (generateCacheKey documentText questions) answers now_store1
                     (record_call (prompt documentText questions)
                        (clearExpiredCache now_sweep1 st))) as Hst1.
  { rewrite Hrun1. apply outbound_success. by rewrite <- Hrun1. }
  assert (responseCache (clearExpiredCache now_sweep2 run1.2)
            !! generateCacheKey documentText questions = Some answers) as Hget.
  { destruct (clearExpiredCache_kept now_sweep2 run1.2
                (generateCacheKey documentText questions)) as [-> _].
    - intros ts. rewrite Hst1. cbn. rewrite lookup_insert_eq.
      intros [= <-]. unfold expired. lia.
    - rewrite Hst1. cbn. by rewrite lookup_insert_eq. }
  assert (run2 = (Returned (Some answers),
                  log (ConsoleLog [AText (js "Returning cached result")])
                    (clearExpiredCache now_sweep2 run1.2))) as ->.
  { subst run2. rewrite runQueryRetrieval_valid by done. by rewrite Hget. }
  cbn [fst snd log calls].
  destruct (clearExpiredCache_frame now_sweep2 run1.2) as [-> _].
  repeat split; try done.
  rewrite Hgrew, length_app. cbn. lia.
Qed.

Lemma repeated_call_served_from_cache_witness :
  let run1 := runQueryRetrieval (Some (answering sample_response)) 1000 1500
                sample_document sample_questions initial_state in
  let run2 := runQueryRetrieval (Some (failing (js "offline"))) 301500 301600
                sample_document sample_questions run1.2 in
  run2.1 = Returned (Some [JString (js "The grace period is thirty days.")])
  /\ calls run2.2 = calls run1.2
  /\ length (calls run2.2) = S (length (calls initial_state)).
Proof.
  apply (repeated_call_served_from_cache (answering sample_response) (failing (js "offline"))
           1000 1500 301500 301600 sample_document sample_questions initial_state
           [JString (js "The grace period is thirty days.")]).
  - vm_compute. reflexivity.
  - vm_compute. reflexivity.
  - vm_compute. discriminate.
Defined.

(** ** C7: a failed call leaves no entry *)

(** C7: when a call made its outbound call and did not return answers (the
    provider failed, the response was empty, it did not parse, or it had
    not the expected shape), the two maps are as the sweep left them, there
    is no entry under the request's key, and the next call with the same
    document and questions makes a fresh outbound call. *)
Theorem failed_call_writes_no_entry
    client1 client2 now_sweep1 now_store1 now_sweep2 now_store2
    documentText questions st :
  let key := generateCacheKey documentText questions in
  let run1 := runQueryRetrieval (Some client1) now_sweep1 now_store1
                documentText questions st in
  let run2 := runQueryRetrieval (Some client2) now_sweep2 now_store2
                documentText questions run1.2 in
  calls run1.2 = calls st ++ [prompt documentText questions] ->
  (forall answers, run1.1 <> Returned (Some answers)) ->
  responseCache run1.2 = responseCache (clearExpiredCache now_sweep1 st)
  /\ cacheTimestamps run1.2 = cacheTimestamps (clearExpiredCache now_sweep1 st)
  /\ responseCache run1.2 !! key = None
  /\ calls run2.2 = calls run1.2 ++ [prompt documentText questions].
Proof.
  intros key run1 run2 Hgrew Hfail.
  destruct (runQueryRetrieval_valid_inputs client1 now_sweep1 now_store1
              documentText questions st) as [Hdoc Hqs]; [by right|].
  pose proof (runQueryRetrieval_cases client1 now_sweep1 now_store1 _ _ st Hdoc Hqs) as Hc.
  cbn zeta in Hc. fold run1 key in Hc.
  destruct Hc as [(cached & _ & Hres & _)|(Hmiss & _ & Hrun1)];
    [by apply Hfail in Hres|].
  rewrite Hrun1 in Hfail. apply outbound_failure in Hfail as [Hrc Hts].
  rewrite <- Hrun1 in Hrc, Hts.
  cbn [responseCache cacheTimestamps record_call] in Hrc, Hts.
  assert (responseCache run1.2 !! key = None) as Hnone by (by rewrite Hrc).
  repeat split; try done.
  pose proof (runQueryRetrieval_cases client2 now_sweep2 now_store2 _ _ run1.2 Hdoc Hqs) as Hc.
  cbn zeta in Hc. fold run2 key in Hc.
  destruct Hc as [(cached & Hget & _)|(_ & Hgrew2 & _)]; [|done].
  apply clearExpiredCache_lookup_Some in Hget as [Hget _]. congruence.
Qed.

Lemma failed_call_writes_no_entry_witness :
  let key := generateCacheKey sample_document sample_questions in
  let run1 := runQueryRetrieval (Some (answering (js "not json"))) 1000 1500
                sample_document sample_questions initial_state in
  let run2 := runQueryRetrieval (Some (answering sample_response)) 2000 2500
                sample_document sample_questions run1.2 in
  responseCache run1.2 = responseCache (clearExpiredCache 1000 initial_state)
  /\ cacheTimestamps run1.2 = cacheTimestamps (clearExpiredCache 1000 initial_state)
  /\ responseCache run1.2 !! key = None
  /\ calls run2.2 = calls run1.2 ++ [prompt sample_document sample_questions].
Proof.
  apply (failed_call_writes_no_entry (answering (js "not json")) (answering sample_response)
           1000 1500 2000 2500 sample_document sample_questions initial_state).
  - vm_compute. reflexivity.
  - intros answers. vm_compute. discriminate.
Defined.

(** ** C4: padding at delivery *)

Lemma queryResults_length processed answers :
  length (queryResults processed answers) = length processed.
Proof. apply length_imap. Qed.

Lemma queryResults_lookup processed answers index r :
  queryResults processed answers !! index = Some r ->
  processed !! index = Some (question r)
  /\ answer r = answer_or_sentinel answers index.
Proof.
  unfold queryResults. rewrite list_lookup_imap.
  destruct (processed !! index) as [q|]; [|done]. by intros [= <-].
Qed.

Lemma answer_or_sentinel_missing answers index :
  (length answers <= index)%nat -> answer_or_sentinel answers index = sentinel.
Proof. intros Hge. unfold answer_or_sentinel. by rewrite lookup_ge_None_2. Qed.

(** An answer that is there and is not falsy is delivered as it is. *)
Lemma answer_or_sentinel_present answers index a :
  answers !! index = Some a -> truthy a = true -> answer_or_sentinel answers index = a.
Proof. intros Ha Ht. unfold answer_or_sentinel. by rewrite Ha, Ht. Qed.

(** Whatever [runQueryRetrieval] hands over, from the provider or from
    the cache, is shown as one result per question. *)
Lemma handleAnalyze_results ai now_sweep now_store documentText questions ui st answers :
  isFormValid false documentText (processedQuestions questions) = true ->
  (runQueryRetrieval ai now_sweep now_store documentText (processedQuestions questions) st).1
  = Returned (Some answers) ->
  results (handleAnalyze ai false now_sweep now_store documentText questions ui st).1
  = Some (queryResults (processedQuestions questions) answers).
Proof.
  intros Hvalid Hret. unfold handleAnalyze. rewrite Hvalid. cbn [negb].
  destruct (runQueryRetrieval _ _ _ _ _ _) as [r st']. cbn in Hret. by subst r.
Qed.

Lemma isFormValid_inputs missing documentText processed :
  isFormValid missing documentText processed = true ->
  missing = false /\ trim documentText <> [] /\ processed <> [].
Proof.
  unfold isFormValid. rewrite !andb_true_iff, negb_true_iff, !bool_decide_eq_true.
  intros [[? ?] Hlen]. repeat split; try done. intros ->. cbn in Hlen. lia.
Qed.

Lemma JSON_parse_empty : JSON_parse [] = None.
Proof. reflexivity. Qed.

(** The outbound part on a response that parses to an object with an
    [answers] array. *)
Lemma handle_reply_answers key now text st parsedResponse answers :
  JSON_parse (trim text) = Some parsedResponse ->
  truthy parsedResponse = true ->
  answers_array parsedResponse = Some answers ->
  catch_block (handle_reply key now (Fulfilled (Some text)) st)
  = (Returned (Some answers), cache_set key answers now st).
Proof.
  intros Hparse Htruthy Hanswers. unfold handle_reply. cbn [fmap option_fmap option_map].
  destruct (trim text) as [|c responseText] eqn:Htrim.
  - by rewrite JSON_parse_empty in Hparse.
  - by rewrite Hparse, Htruthy, Hanswers.
Qed.

(** C4: when the form is valid, no fresh entry is cached for the request,
    and the provider returns a text that parses to an object whose
    [answers] array has fewer entries than there are questions,
    [handleAnalyze] delivers exactly one result per question, in order;
    the answer of every position the provider left out is
    ["No answer found."], and at every position the provider did answer,
    the delivered answer is the provider's answer (or ["No answer found."]
    when that answer is falsy, such as an empty string). *)
Theorem padding_law
    client now_sweep now_store documentText questions ui st text parsedResponse answers :
  let processed := processedQuestions questions in
  isFormValid false documentText processed = true ->
  responseCache (clearExpiredCache now_sweep st)
    !! generateCacheKey documentText processed = None ->
  generateContent client (prompt documentText processed) = Fulfilled (Some text) ->
  JSON_parse (trim text) = Some parsedResponse ->
  truthy parsedResponse = true ->
  answers_array parsedResponse = Some answers ->
  (length answers < length processed)%nat ->
  exists delivered,
    results (handleAnalyze (Some client) false now_sweep now_store
               documentText questions ui st).1 = Some delivered
    /\ length delivered = length processed
    /\ (forall index r, delivered !! index = Some r ->
          processed !! index = Some (question r))
    /\ (forall index r, delivered !! index = Some r ->
          (length answers <= index)%nat -> answer r = sentinel)
    /\ (forall index r a, delivered !! index = Some r ->
          answers !! index = Some a -> truthy a = true -> answer r = a)
    /\ (forall index r a, delivered !! index = Some r ->
          answers !! index = Some a -> truthy a = false -> answer r = sentinel).
Proof.
  intros processed Hvalid Hmiss Hreply Hparse Htruthy Hanswers Hshort.
  destruct (isFormValid_inputs _ _ _ Hvalid) as (_ & Hdoc & Hqs).
  exists (queryResults processed answers). split; [|split; [|split; [|split; [|split]]]].
  - apply handleAnalyze_results; [done|]. fold processed.
    rewrite runQueryRetrieval_valid by done. rewrite Hmiss, Hreply.
    by erewrite handle_reply_answers.
  - apply queryResults_length.
  - intros index r Hr. by apply queryResults_lookup in Hr as [? _].
  - intros index r Hr Hge. apply queryResults_lookup in Hr as [_ ->].
    by apply answer_or_sentinel_missing.
  - intros index r a Hr Ha Ht. apply queryResults_lookup in Hr as [_ ->].
    by apply answer_or_sentinel_present.
  - intros index r a Hr Ha Ht. apply queryResults_lookup in Hr as [_ ->].
    unfold answer_or_sentinel. by rewrite Ha, Ht.
Qed.

Lemma padding_law_witness :
  let questions := js "What is the grace period?
Is maternity covered?
" in
  let processed := processedQuestions questions in
  exists delivered,
    results (handleAnalyze (Some (answering sample_response)) false 1000 1500
               sample_document questions
               {| results := None; isLoading := false; error := None |}
               initial_state).1 = Some delivered
    /\ length delivered = length processed
    /\ (forall index r, delivered !! index = Some r ->
          processed !! index = Some (question r))
    /\ (forall index r, delivered !! index = Some r ->
          (length [JString (js "The grace period is thirty days.")] <= index)%nat ->
          answer r = sentinel)
    /\ (forall index r a, delivered !! index = Some r ->
          [JString (js "The grace period is thirty days.")] !! index = Some a ->
          truthy a = true -> answer r = a)
    /\ (forall index r a, delivered !! index = Some r ->
          [JString (js "The grace period is thirty days.")] !! index = Some a ->
          truthy a = false -> answer r = sentinel).
Proof.
  intros questions processed.
  apply (padding_law (answering sample_response) 1000 1500 sample_document questions
           {| results := None; isLoading := false; error := None |} initial_state
           sample_response
           (JObject [(js "answers", JArray [JString (js "The grace period is thirty days.")])])
           [JString (js "The grace period is thirty days.")]).
  - vm_compute. reflexivity.
  - vm_compute. reflexivity.
  - reflexivity.
  - vm_compute. reflexivity.
  - reflexivity.
  - vm_compute. reflexivity.
  - vm_compute. lia.
Defined.

Example delivery_sample :
  let questions := js "What is the grace period?
Is maternity covered?
" in
  results (handleAnalyze (Some (answering sample_response)) false 1000 1500
             sample_document questions
             {| results := None; isLoading := false; error := None |}
             initial_state).1
  = Some [ {| question := js "What is the grace period?";
              answer := JString (js "The grace period is thirty days.") |};
           {| question := js "Is maternity covered?"; answer := sentinel |} ].
Proof. vm_compute. reflexivity. Qed.

(** ** C5: malformed provider output *)

Lemma classify_invalid_json :
  classify (ErrorObject msg_invalid_json)
  = ErrorObject (msg_generic_prefix ++ msg_invalid_json).
Proof. reflexivity. Qed.

(** C5, the claim as stated fails: a response whose [answers] array holds
    numbers, not strings, is no error; the array is returned and cached. *)
Lemma non_string_answers_accepted :
  let key := generateCacheKey sample_document sample_questions in
  let run := runQueryRetrieval (Some (answering (jsq "{'answers':[1,2]}"))) 1000 1500
               sample_document sample_questions initial_state in
  responseCache (clearExpiredCache 1000 initial_state) !! key = None
  /\ run.1 = Returned (Some [JNumber 1 0; JNumber 2 0])
  /\ responseCache run.2 !! key = Some [JNumber 1 0; JNumber 2 0].
Proof. vm_compute. done. Qed.

(** C5 (amended): on a call that reaches the provider and gets a text,
    - a text that is blank makes the call return [null];
    - a text that is not valid JSON makes it throw the error
      ["Gemini API Error: Invalid JSON response from Gemini API."];
    - a text that parses to a falsy value, or to a value without an
      [answers] member, or whose [answers] is not an array, makes it
      return [null];
    and in these three cases the two maps are as the sweep left them, with
    no entry under the request's key.  The elements of an [answers] array
    are not inspected: any array is returned and stored as it is. *)
Theorem malformed_response_not_cached
    client now_sweep now_store documentText questions st text :
  let key := generateCacheKey documentText questions in
  let swept_st := clearExpiredCache now_sweep st in
  let run := runQueryRetrieval (Some client) now_sweep now_store documentText questions st in
  trim documentText <> [] -> questions <> [] ->
  responseCache swept_st !! key = None ->
  generateContent client (prompt documentText questions) = Fulfilled (Some text) ->
  (trim text = [] -> run.1 = Returned None)
  /\ (trim text <> [] -> JSON_parse (trim text) = None ->
      run.1 = Threw (ErrorObject (msg_generic_prefix ++ msg_invalid_json)))
  /\ (forall parsedResponse,
        JSON_parse (trim text) = Some parsedResponse ->
        truthy parsedResponse = false \/ answers_array parsedResponse = None ->
        run.1 = Returned None)
  /\ ((forall parsedResponse answers,
         JSON_parse (trim text) = Some parsedResponse ->
         truthy parsedResponse = true ->
         answers_array parsedResponse <> Some answers) ->
      responseCache run.2 = responseCache swept_st
      /\ cacheTimestamps run.2 = cacheTimestamps swept_st
      /\ responseCache run.2 !! key = None)
  /\ (forall parsedResponse answers,
        JSON_parse (trim text) = Some parsedResponse ->
        truthy parsedResponse = true ->
        answers_array parsedResponse = Some answers ->
        run.1 = Returned (Some answers) /\ responseCache run.2 !! key = Some answers).
Proof.
  intros key swept_st run Hdoc Hqs Hmiss Hreply.
  assert (run = catch_block
                  (handle_reply key now_store (Fulfilled (Some text))
                     (record_call (prompt documentText questions) swept_st))) as Hrun.
  { subst run. rewrite runQueryRetrieval_valid by done.
    fold key swept_st. by rewrite Hmiss, Hreply. }
  rewrite Hrun. clear Hrun run. unfold handle_reply. cbn [fmap option_fmap option_map].
  destruct (trim text) as [|c responseText] eqn:Htrim.
  { rewrite JSON_parse_empty. cbn. repeat split; done. }
  destruct (JSON_parse (c :: responseText)) as [parsed|] eqn:Hparse.
  2:{ cbn [catch_block fst snd]. rewrite classify_invalid_json.
      cbn [log record_call responseCache cacheTimestamps]. repeat split; done. }
  destruct (truthy parsed) eqn:Htruthy;
    [destruct (answers_array parsed) as [answers|] eqn:Hanswers|].
  - cbn. split; [done|]. split; [done|]. split; [|split].
    + intros parsed' [= <-] [?|?]; congruence.
    + intros Hnone. exfalso. by eapply (Hnone parsed answers).
    + intros parsed' answers' [= <-] _ Ha. rewrite lookup_insert_eq.
      split; congruence.
  - cbn. split; [done|]. split; [done|]. split; [done|]. split; [done|].
    intros parsed' answers' [= <-] _ Ha. congruence.
  - cbn. split; [done|]. split; [done|]. split; [done|]. split; [done|].
    intros parsed' answers' [= <-] Ht. congruence.
Qed.

Lemma malformed_response_not_cached_witness :
  let text := jsq "{'result':['The grace period is thirty days.']}" in
  let key := generateCacheKey sample_document sample_questions in
  let run := runQueryRetrieval (Some (answering text)) 1000 1500
               sample_document sample_questions initial_state in
  run.1 = Returned None /\ responseCache run.2 !! key = None.
Proof.
  intros text key run.
  pose proof (malformed_response_not_cached (answering text) 1000 1500
                sample_document sample_questions initial_state text
                ltac:(vm_compute; discriminate) ltac:(discriminate)
                ltac:(vm_compute; reflexivity) ltac:(reflexivity))
    as (_ & _ & Hshape & Hcache & _).
  split.
  - apply (Hshape (JObject [(js "result",
                             JArray [JString (js "The grace period is thirty days.")])])).
    + vm_compute. reflexivity.
    + right. vm_compute. reflexivity.
  - apply Hcache. intros parsedResponse answers Hparse _.
    vm_compute in Hparse. injection Hparse as <-. vm_compute. discriminate.
Defined.

(** ** C6: input validation *)

(** C6, the claim as stated fails: a question list whose only entry is
    blank passes the validation, and the provider is called. *)
Lemma blank_question_reaches_provider :
  let questions := [js "   "] in
  let run := runQueryRetrieval (Some (answering sample_response)) 1000 1500
               sample_document questions initial_state in
  Forall (fun q => trim q = []) questions
  /\ run.1 = Returned (Some [JString (js "The grace period is thirty days.")])
  /\ calls run.2 = [prompt sample_document questions].
Proof.
  cbn zeta. split; [|split].
  - repeat constructor.
  - vm_compute. reflexivity.
  - vm_compute. reflexivity.
Qed.

(** C6 (amended): with a configured client, [runQueryRetrieval] throws
    ["Document text cannot be empty."] when the document text is empty or
    blank after trimming, and otherwise ["At least one question is
    required."] when the question list is empty; in both cases the state is
    untouched: the cache was neither swept nor read, and no provider call
    was made.  Blank entries of a non-empty question list are not looked
    at; the caller drops them before the call. *)
Theorem invalid_input_fails_fast
    client now_sweep now_store documentText questions st :
  let run := runQueryRetrieval (Some client) now_sweep now_store documentText questions st in
  (trim documentText = [] -> run = (Threw (ErrorObject msg_empty_document), st))
  /\ (trim documentText <> [] -> questions = [] ->
      run = (Threw (ErrorObject msg_no_question), st)).
Proof.
  cbn zeta. unfold runQueryRetrieval. split.
  - intros Hdoc. by rewrite bool_decide_eq_true_2.
  - intros Hdoc ->. by rewrite bool_decide_eq_false_2.
Qed.

Lemma invalid_input_fails_fast_witness :
  runQueryRetrieval (Some (answering sample_response)) 301501 301600
    (js "  ") sample_questions sample_state
  = (Threw (ErrorObject msg_empty_document), sample_state)
  /\ runQueryRetrieval (Some (answering sample_response)) 301501 301600
       sample_document [] sample_state
     = (Threw (ErrorObject msg_no_question), sample_state).
Proof.
  split.
  - apply (proj1 (invalid_input_fails_fast (answering sample_response) 301501 301600
                    (js "  ") sample_questions sample_state)).
    reflexivity.
  - apply (proj2 (invalid_input_fails_fast (answering sample_response) 301501 301600
                    sample_document [] sample_state)).
    + vm_compute. discriminate.
    + reflexivity.
Defined.

(** The caller only passes non-blank questions. *)
Lemma processedQuestions_non_blank questions :
  Forall (fun q => trim q <> []) (processedQuestions questions).
Proof.
  unfold processedQuestions. apply Forall_forall. by intros q [? _]%list_elem_of_filter.
Qed.

(** ** C8: what a cache entry holds *)

(** C8, the claim as stated fails: for one question, a provider that
    returns an empty [answers] array leaves an entry of length 0. *)
Lemma short_answers_stored_unpadded :
  let key := generateCacheKey sample_document sample_questions in
  let run := runQueryRetrieval (Some (answering (jsq "{'answers':[]}"))) 1000 1500
               sample_document sample_questions initial_state in
  responseCache run.2 !! key = Some []
  /\ length ([] : list json) <> length sample_questions.
Proof. split; [vm_compute; reflexivity | discriminate]. Qed.

(** C8 (amended): the entry a call stores under the request's key is the
    [answers] array of the provider's response as it was parsed, with the
    time of the write as its timestamp; nothing is padded or cut, so the
    entry has one answer per question exactly when the provider returned
    one answer per question. *)
Theorem cache_entry_is_provider_answers
    client now_sweep now_store documentText questions st answers :
  let key := generateCacheKey documentText questions in
  let run := runQueryRetrieval (Some client) now_sweep now_store documentText questions st in
  run.1 = Returned (Some answers) ->
  calls run.2 = calls st ++ [prompt documentText questions] ->
  (exists text parsedResponse,
     generateContent client (prompt documentText questions) = Fulfilled (Some text)
     /\ JSON_parse (trim text) = Some parsedResponse
     /\ answers_array parsedResponse = Some answers)
  /\ responseCache run.2 !! key = Some answers
  /\ cacheTimestamps run.2 !! key = Some now_store
  /\ (forall stored, responseCache run.2 !! key = Some stored ->
        length stored = length questions <-> length answers = length questions).
Proof.
  intros key run Hret Hgrew.
  destruct (runQueryRetrieval_valid_inputs client now_sweep now_store
              documentText questions st) as [Hdoc Hqs]; [by right|].
  pose proof (runQueryRetrieval_cases client now_sweep now_store _ _ st Hdoc Hqs) as Hc.
  cbn zeta in Hc. fold run key in Hc.
  destruct Hc as [(cached & _ & _ & Hsame & _)|(_ & _ & Hrun)];
    [rewrite Hsame in Hgrew; by apply calls_grew_ne in Hgrew|].
  assert (responseCache run.2 !! key = Some answers
          /\ cacheTimestamps run.2 !! key = Some now_store) as [Hrc Hts].
  { rewrite Hrun in Hret. apply outbound_success in Hret. rewrite <- Hrun in Hret.
    rewrite Hret. cbn. by rewrite !lookup_insert_eq. }
  split; [|split; [done|split; [done|]]].
  - rewrite Hrun in Hret. clear Hrun Hrc Hts. unfold handle_reply in Hret.
    destruct (generateContent client (prompt documentText questions))
      as [[text|]|e]; try done.
    cbn [fmap option_fmap option_map] in Hret.
    destruct (trim text) as [|c responseText] eqn:Htrim; [done|].
    destruct (JSON_parse (c :: responseText)) as [parsed|] eqn:Hparse; [|done].
    exists text, parsed. rewrite Htrim. split; [done|]. split; [done|].
    destruct (truthy parsed); [|done].
    destruct (answers_array parsed) as [a|]; [|done].
    cbn in Hret. congruence.
  - intros stored Hstored. by assert (stored = answers) as -> by congruence.
Qed.

Lemma cache_entry_is_provider_answers_witness :
  let key := generateCacheKey sample_document sample_questions in
  let run := runQueryRetrieval (Some (answering (jsq "{'answers':[]}"))) 1000 1500
               sample_document sample_questions initial_state in
  (exists text parsedResponse,
     generateContent (answering (jsq "{'answers':[]}"))
       (prompt sample_document sample_questions) = Fulfilled (Some text)
     /\ JSON_parse (trim text) = Some parsedResponse
     /\ answers_array parsedResponse = Some [])
  /\ responseCache run.2 !! key = Some []
  /\ cacheTimestamps run.2 !! key = Some 1500
  /\ (forall stored, responseCache run.2 !! key = Some stored ->
        length stored = length sample_questions
        <-> length ([] : list json) = length sample_questions).
Proof.
  apply (cache_entry_is_provider_answers (answering (jsq "{'answers':[]}")) 1000 1500
           sample_document sample_questions initial_state []).
  - vm_compute. reflexivity.
  - vm_compute. reflexivity.
Defined.

(** At the level of the form, questions that are all blank never reach
    [runQueryRetrieval]. *)
Lemma handleAnalyze_blank_questions ai missing now_sweep now_store documentText questions ui st :
  processedQuestions questions = [] ->
  (handleAnalyze ai missing now_sweep now_store documentText questions ui st).2 = st
  /\ is_Some (error (handleAnalyze ai missing now_sweep now_store
                       documentText questions ui st).1).
Proof.
  intros Hblank. unfold handleAnalyze, isFormValid. rewrite Hblank. cbn.
  rewrite andb_false_r. cbn. eauto.
Qed.

(** ** C9: classification of provider failures *)

(** C9, the claim as stated fails: the error surfaced for a quota failure
    holds a fixed text and nothing of the provider's message. *)
Lemma quota_error_drops_provider_message :
  let message := js "429: quota exhausted for project 42" in
  let run := runQueryRetrieval (Some (failing message)) 1000 1500
               sample_document sample_questions initial_state in
  run.1 = Threw (ErrorObject msg_quota)
  /\ includes msg_quota message = false.
Proof. vm_compute. done. Qed.

(** The kinds are told apart by their messages. *)
Lemma error_kinds_distinct message :
  msg_quota <> msg_unauthorized /\ msg_quota <> msg_rate_limit
  /\ msg_unauthorized <> msg_rate_limit
  /\ msg_generic_prefix ++ message <> msg_quota
  /\ msg_generic_prefix ++ message <> msg_unauthorized
  /\ msg_generic_prefix ++ message <> msg_rate_limit.
Proof. repeat split; discriminate. Qed.

(** C9 (amended): when the provider call of a request fails with an
    [Error], [runQueryRetrieval] throws an error of one of four kinds,
    chosen by the first of the words [quota], [unauthorized], [rate limit]
    that the provider's message contains, and the generic kind when it
    contains none.  Only the generic kind carries the provider's message,
    after the prefix ["Gemini API Error: "]; the three others have a fixed
    text.  In every case the provider's error is written to the console as
    it was received, and nothing is cached. *)
Theorem provider_error_classification
    client now_sweep now_store documentText questions st message :
  let key := generateCacheKey documentText questions in
  let swept_st := clearExpiredCache now_sweep st in
  let run := runQueryRetrieval (Some client) now_sweep now_store documentText questions st in
  trim documentText <> [] -> questions <> [] ->
  responseCache swept_st !! key = None ->
  generateContent client (prompt documentText questions) = Rejected (ErrorObject message) ->
  (includes message (js "quota") = true -> run.1 = Threw (ErrorObject msg_quota))
  /\ (includes message (js "quota") = false ->
      includes message (js "unauthorized") = true ->
      run.1 = Threw (ErrorObject msg_unauthorized))
  /\ (includes message (js "quota") = false ->
      includes message (js "unauthorized") = false ->
      includes message (js "rate limit") = true ->
      run.1 = Threw (ErrorObject msg_rate_limit))
  /\ (includes message (js "quota") = false ->
      includes message (js "unauthorized") = false ->
      includes message (js "rate limit") = false ->
      run.1 = Threw (ErrorObject (msg_generic_prefix ++ message)))
  /\ console run.2
     = console st ++ [ConsoleError [AText (js "Error calling Gemini API:");
                                    AThrown (ErrorObject message)]]
  /\ responseCache run.2 = responseCache swept_st
  /\ cacheTimestamps run.2 = cacheTimestamps swept_st.
Proof.
  intros key swept_st run Hdoc Hqs Hmiss Hreply.
  assert (run = (Threw (classify (ErrorObject message)),
                 log (ConsoleError [AText (js "Error calling Gemini API:");
                                    AThrown (ErrorObject message)])
                   (record_call (prompt documentText questions) swept_st))) as ->.
  { subst run. rewrite runQueryRetrieval_valid by done.
    fold key swept_st. by rewrite Hmiss, Hreply. }
  cbn [fst snd log record_call console responseCache cacheTimestamps classify].
  destruct (clearExpiredCache_frame now_sweep st) as [_ Hconsole].
  fold swept_st in Hconsole. rewrite Hconsole.
  split; [by intros ->|]. split; [by intros -> ->|].
  split; [by intros -> -> ->|]. split; [by intros -> -> ->|]. done.
Qed.

Lemma provider_error_classification_witness :
  let message := js "503 service unavailable" in
  let run := runQueryRetrieval (Some (failing message)) 1000 1500
               sample_document sample_questions initial_state in
  run.1 = Threw (ErrorObject (js "Gemini API Error: 503 service unavailable"))
  /\ console run.2
     = console initial_state
       ++ [ConsoleError [AText (js "Error calling Gemini API:");
                         AThrown (ErrorObject message)]].
Proof.
  intros message run.
  pose proof (provider_error_classification (failing message) 1000 1500
                sample_document sample_questions initial_state message
                ltac:(vm_compute; discriminate) ltac:(discriminate)
                ltac:(vm_compute; reflexivity) ltac:(reflexivity))
    as (_ & _ & _ & Hgeneric & Hconsole & _).
  split; [|exact Hconsole].
  apply Hgeneric; vm_compute; reflexivity.
Defined.

(** A thrown value that is not an [Error] gives the fifth, unknown, kind. *)
Lemma provider_non_error_classification
    client now_sweep now_store documentText questions st :
  trim documentText <> [] -> questions <> [] ->
  responseCache (clearExpiredCache now_sweep st)
    !! generateCacheKey documentText questions = None ->
  generateContent client (prompt documentText questions) = Rejected NotAnError ->
  (runQueryRetrieval (Some client) now_sweep now_store documentText questions st).1
  = Threw (ErrorObject msg_unknown).
Proof.
  intros Hdoc Hqs Hmiss Hreply.
  rewrite runQueryRetrieval_valid by done. by rewrite Hmiss, Hreply.
Qed.

(** ** C10: the client check comes first *)

(** C10: when [process.env.API_KEY] is undefined or empty, so that the
    module has no client, [runQueryRetrieval] throws ["Gemini AI client not
    initialized."] for every document text and question list, the empty
    ones included; the state is as before but for one line on the console:
    no validation error is surfaced, the cache is neither swept nor read,
    and no provider call is made. *)
Theorem not_configured_takes_precedence
    API_KEY client now_sweep now_store documentText questions st :
  API_KEY = None \/ API_KEY = Some [] ->
  let run := runQueryRetrieval (init_ai API_KEY client) now_sweep now_store
               documentText questions st in
  run = (Threw (ErrorObject msg_not_initialized),
         log (ConsoleError
                [AText (js "Gemini AI client is not initialized. Make sure API_KEY is set.")])
           st)
  /\ run.1 <> Threw (ErrorObject msg_empty_document)
  /\ run.1 <> Threw (ErrorObject msg_no_question)
  /\ responseCache run.2 = responseCache st
  /\ cacheTimestamps run.2 = cacheTimestamps st
  /\ calls run.2 = calls st.
Proof.
  intros [-> | ->]; cbn; repeat split; discriminate.
Qed.

Lemma not_configured_takes_precedence_witness :
  let run := runQueryRetrieval (init_ai None (answering sample_response)) 301501 301600
               [] [] sample_state in
  run = (Threw (ErrorObject msg_not_initialized),
         log (ConsoleError
                [AText (js "Gemini AI client is not initialized. Make sure API_KEY is set.")])
           sample_state)
  /\ run.1 <> Threw (ErrorObject msg_empty_document)
  /\ run.1 <> Threw (ErrorObject msg_no_question)
  /\ responseCache run.2 = responseCache sample_state
  /\ cacheTimestamps run.2 = cacheTimestamps sample_state
  /\ calls run.2 = calls sample_state.
Proof.
  apply (not_configured_takes_precedence None (answering sample_response) 301501 301600
           [] [] sample_state).
  left. reflexivity.
Defined.

(** * More properties of the code *)

(** ** The sweep, [clearExpiredCache] *)

(** X1: the sweep deletes from both maps exactly the keys whose timestamp
    is older than [CACHE_EXPIRY] at [now]; every other entry of either map,
    an entry of age exactly [CACHE_EXPIRY] included, is as before, and so
    are the call log and the console. *)
Theorem clearExpiredCache_exact now st key :
  cacheTimestamps (clearExpiredCache now st) !! key
  = match cacheTimestamps st !! key with
    | Some timestamp =>
        if bool_decide (now - timestamp > CACHE_EXPIRY) then None else Some timestamp
    | None => None
    end
  /\ responseCache (clearExpiredCache now st) !! key
     = match cacheTimestamps st !! key with
       | Some timestamp =>
           if bool_decide (now - timestamp > CACHE_EXPIRY) then None
           else responseCache st !! key
       | None => responseCache st !! key
       end
  /\ calls (clearExpiredCache now st) = calls st
  /\ console (clearExpiredCache now st) = console st.
Proof.
  destruct (clearExpiredCache_frame now st) as [Hcalls Hconsole].
  destruct (cacheTimestamps st !! key) as [ts|] eqn:Hts.
  - case_bool_decide as Hexp.
    + destruct (clearExpiredCache_expired now st key ts Hts Hexp) as [-> ->]. done.
    + destruct (clearExpiredCache_kept now st key) as [-> ->]; [|by rewrite Hts].
      intros ts' Hts'. assert (ts' = ts) as -> by congruence. done.
  - destruct (clearExpiredCache_kept now st key) as [-> ->]; [|by rewrite Hts].
    intros ts' Hts'. congruence.
Qed.

Lemma state_eq (s t : state) :
  responseCache s = responseCache t -> cacheTimestamps s = cacheTimestamps t ->
  calls s = calls t -> console s = console t -> s = t.
Proof. destruct s, t. cbn. by intros -> -> -> ->. Qed.

(** X2: sweeping at [now1] and then at a later [now2] is the same as
    sweeping once at [now2]; in particular the sweep is idempotent.  After
    a sweep at [now2] no remaining timestamp is older than [CACHE_EXPIRY]. *)
Theorem clearExpiredCache_compose now1 now2 st :
  now1 <= now2 ->
  clearExpiredCache now2 (clearExpiredCache now1 st) = clearExpiredCache now2 st
  /\ forall key timestamp,
       cacheTimestamps (clearExpiredCache now2 st) !! key = Some timestamp ->
       now2 - timestamp <= CACHE_EXPIRY.
Proof.
  intros Hle. split.
  - apply state_eq.
    + apply map_eq. intros key.
      destruct (clearExpiredCache_exact now2 (clearExpiredCache now1 st) key)
        as (Hts2 & -> & _).
      destruct (clearExpiredCache_exact now1 st key) as (-> & -> & _).
      destruct (clearExpiredCache_exact now2 st key) as (_ & -> & _).
      destruct (cacheTimestamps st !! key) as [ts|]; [|done].
      repeat case_bool_decide; try done; lia.
    + apply map_eq. intros key.
      destruct (clearExpiredCache_exact now2 (clearExpiredCache now1 st) key)
        as (-> & _).
      destruct (clearExpiredCache_exact now1 st key) as (-> & _).
      destruct (clearExpiredCache_exact now2 st key) as (-> & _).
      destruct (cacheTimestamps st !! key) as [ts|]; [|done].
      repeat case_bool_decide; try done; lia.
    + destruct (clearExpiredCache_frame now2 (clearExpiredCache now1 st)) as [-> _].
      destruct (clearExpiredCache_frame now1 st) as [-> _].
      by destruct (clearExpiredCache_frame now2 st) as [-> _].
    + destruct (clearExpiredCache_frame now2 (clearExpiredCache now1 st)) as [_ ->].
      destruct (clearExpiredCache_frame now1 st) as [_ ->].
      by destruct (clearExpiredCache_frame now2 st) as [_ ->].
  - intros key ts. destruct (clearExpiredCache_exact now2 st key) as (-> & _).
    destruct (cacheTimestamps st !! key) as [ts'|]; [|done].
    case_bool_decide; [done|]. intros [= ->]. lia.
Qed.

Lemma clearExpiredCache_compose_witness :
  clearExpiredCache 400000 (clearExpiredCache 2000 sample_state)
  = clearExpiredCache 400000 sample_state
  /\ forall key timestamp,
       cacheTimestamps (clearExpiredCache 400000 sample_state) !! key = Some timestamp ->
       400000 - timestamp <= CACHE_EXPIRY.
Proof. apply (clearExpiredCache_compose 2000 400000 sample_state). lia. Defined.

(** ** The two maps go together *)

Lemma stamped_cached_clearExpiredCache now st :
  stamped_cached st -> stamped_cached (clearExpiredCache now st).
Proof.
  intros Hinv key. destruct (clearExpiredCache_exact now st key) as (-> & -> & _).
  specialize (Hinv key). destruct (cacheTimestamps st !! key) as [ts|]; [|by intros [? ?]].
  case_bool_decide; [by intros [? ?]|]. intros _. apply Hinv. eauto.
Qed.

Lemma stamped_cached_resume key now r st :
  stamped_cached st -> stamped_cached (catch_block (handle_reply key now r st)).2.
Proof.
  intros Hinv. unfold handle_reply. repeat case_match; cbn; try done.
  intros k. cbn. destruct (decide (key = k)) as [->|Hne].
  - rewrite !lookup_insert_eq. eauto.
  - rewrite !lookup_insert_ne by done. apply Hinv.
Qed.

Lemma stamped_cached_runQueryRetrieval ai now_sweep now_store documentText questions st :
  stamped_cached st ->
  stamped_cached (runQueryRetrieval ai now_sweep now_store documentText questions st).2.
Proof.
  intros Hinv. unfold runQueryRetrieval.
  destruct ai as [client|]; [|done].
  repeat case_bool_decide; try done.
  pose proof (stamped_cached_clearExpiredCache now_sweep st Hinv) as Hsw.
  case_match; [done|]. by apply stamped_cached_resume.
Qed.

Lemma stamped_cached_handleAnalyze ai missing now_sweep now_store documentText questions ui st :
  stamped_cached st ->
  stamped_cached (handleAnalyze ai missing now_sweep now_store documentText questions ui st).2.
Proof.
  intros Hinv. unfold handleAnalyze. case_match; [done|].
  pose proof (stamped_cached_runQueryRetrieval ai now_sweep now_store documentText
                (processedQuestions questions) st Hinv) as Hrun.
  destruct (runQueryRetrieval _ _ _ _ _ _) as [[[a|]|e] st']; done.
Qed.

(** X3: in every state the module can reach, interleaved calls included,
    [responseCache] and [cacheTimestamps] have the same keys: no answer
    sequence without a timestamp and no timestamp without answers. *)
Theorem reachable_maps_same_keys st :
  reachable st ->
  forall key, is_Some (responseCache st !! key) <-> is_Some (cacheTimestamps st !! key).
Proof.
  intros Hreach key. split; [by apply reachable_timestamped|].
  revert key. change (stamped_cached st).
  induction Hreach as [| | | |].
  - intros key [a Ha]. cbn in Ha. by rewrite lookup_empty in Ha.
  - by apply stamped_cached_runQueryRetrieval.
  - by apply stamped_cached_handleAnalyze.
  - by apply (stamped_cached_clearExpiredCache now_sweep).
  - by apply stamped_cached_resume.
Qed.

Lemma reachable_maps_same_keys_witness :
  is_Some (responseCache sample_state !! generateCacheKey sample_document sample_questions)
  <-> is_Some (cacheTimestamps sample_state
                 !! generateCacheKey sample_document sample_questions).
Proof.
  apply (reachable_maps_same_keys sample_state).
  apply reachable_run, reachable_initial.
Defined.

(** ** What one call does to the outside and to other entries *)

(** X4: a call of [runQueryRetrieval] makes at most one provider call,
    with the prompt of its own request, and keeps the record of the earlier
    ones; there is no retry on any path. *)
Theorem runQueryRetrieval_at_most_one_call
    ai now_sweep now_store documentText questions st :
  let run := runQueryRetrieval ai now_sweep now_store documentText questions st in
  calls run.2 = calls st \/ calls run.2 = calls st ++ [prompt documentText questions].
Proof.
  cbn zeta. destruct ai as [client|]; [|by left].
  destruct (decide (trim documentText = [])) as [Hdoc|Hdoc];
    [|destruct (decide (questions = [])) as [Hqs|Hqs]].
  - destruct (runQueryRetrieval_invalid client now_sweep now_store documentText questions st)
      as [m ->]; eauto.
  - destruct (runQueryRetrieval_invalid client now_sweep now_store documentText questions st)
      as [m ->]; eauto.
  - destruct (runQueryRetrieval_cases client now_sweep now_store _ _ st Hdoc Hqs)
      as [(? & _ & _ & ? & _)|(_ & ? & _)]; eauto.
Qed.

Lemma outbound_other_key key now r st key' :
  key' <> key ->
  responseCache (catch_block (handle_reply key now r st)).2 !! key' = responseCache st !! key'
  /\ cacheTimestamps (catch_block (handle_reply key now r st)).2 !! key'
     = cacheTimestamps st !! key'.
Proof.
  intros Hne. unfold handle_reply. repeat case_match; cbn; try done.
  by rewrite !lookup_insert_ne.
Qed.

(** X5: a call leaves the entry of any other key alone as long as that
    entry is not expired at the time of the sweep: its answers and its
    timestamp are the same after the call, whatever the outcome. *)
Theorem runQueryRetrieval_keeps_other_fresh_entries
    ai now_sweep now_store documentText questions st key' timestamp :
  let run := runQueryRetrieval ai now_sweep now_store documentText questions st in
  key' <> generateCacheKey documentText questions ->
  cacheTimestamps st !! key' = Some timestamp ->
  now_sweep - timestamp <= CACHE_EXPIRY ->
  responseCache run.2 !! key' = responseCache st !! key'
  /\ cacheTimestamps run.2 !! key' = Some timestamp.
Proof.
  intros run Hne Hts Hfresh. subst run.
  destruct (clearExpiredCache_exact now_sweep st key') as (Hts' & Hrc' & _).
  rewrite Hts, bool_decide_eq_false_2 in Hts', Hrc' by lia.
  destruct ai as [client|]; [|done].
  destruct (decide (trim documentText = [])) as [Hdoc|Hdoc];
    [|destruct (decide (questions = [])) as [Hqs|Hqs]].
  - destruct (runQueryRetrieval_invalid client now_sweep now_store documentText questions st)
      as [m ->]; eauto.
  - destruct (runQueryRetrieval_invalid client now_sweep now_store documentText questions st)
      as [m ->]; eauto.
  - destruct (runQueryRetrieval_cases client now_sweep now_store _ _ st Hdoc Hqs)
      as [(? & _ & _ & _ & Hrc & Htsm)|(_ & _ & ->)].
    + by rewrite Hrc, Htsm.
    + destruct (outbound_other_key (generateCacheKey documentText questions) now_store
                  (generateContent client (prompt documentText questions))
                  (record_call (prompt documentText questions)
                     (clearExpiredCache now_sweep st)) key' Hne) as [-> ->].
      done.
Qed.

Lemma runQueryRetrieval_keeps_other_fresh_entries_witness :
  let key' := generateCacheKey sample_document sample_questions in
  let run := runQueryRetrieval (Some (answering (jsq "{'answers':['Yes.']}"))) 2000 2500
               sample_document [js "Is maternity covered?"] sample_state in
  responseCache run.2 !! key' = responseCache sample_state !! key'
  /\ cacheTimestamps run.2 !! key' = Some 1500.
Proof.
  apply (runQueryRetrieval_keeps_other_fresh_entries
           (Some (answering (jsq "{'answers':['Yes.']}"))) 2000 2500
           sample_document [js "Is maternity covered?"] sample_state
           (generateCacheKey sample_document sample_questions) 1500).
  - vm_compute. discriminate.
  - vm_compute. reflexivity.
  - vm_compute. discriminate.
Defined.

Lemma catch_block_threw_Error r e :
  (catch_block r).1 = Threw e -> exists message, e = ErrorObject message.
Proof.
  destruct r as [[a|e0] st]; cbn; [done|]. intros [= <-].
  unfold classify. destruct e0 as [m|]; repeat case_match; eauto.
Qed.

Lemma runQueryRetrieval_threw_Error ai now_sweep now_store documentText questions st e :
  (runQueryRetrieval ai now_sweep now_store documentText questions st).1 = Threw e ->
  exists message, e = ErrorObject message.
Proof.
  destruct ai as [client|]; [|cbn; intros [= <-]; eauto].
  destruct (decide (trim documentText = [])) as [Hdoc|Hdoc];
    [|destruct (decide (questions = [])) as [Hqs|Hqs]].
  - destruct (runQueryRetrieval_invalid client now_sweep now_store documentText questions st)
      as [m ->]; [eauto|]. cbn. intros [= <-]. eauto.
  - destruct (runQueryRetrieval_invalid client now_sweep now_store documentText questions st)
      as [m ->]; [eauto|]. cbn. intros [= <-]. eauto.
  - destruct (runQueryRetrieval_cases client now_sweep now_store _ _ st Hdoc Hqs)
      as [(? & _ & -> & _)|(_ & _ & ->)]; [done|].
    apply catch_block_threw_Error.
Qed.

(** X14: whatever [runQueryRetrieval] throws is an [Error] object, also
    when the provider rejected with something else; so the message
    [handleAnalyze] shows after a throw is always the text
    ["Failed to retrieve answers. "] followed by that error's message. *)
Theorem runQueryRetrieval_throws_errors
    ai missing now_sweep now_store documentText questions ui st e :
  let processed := processedQuestions questions in
  isFormValid missing documentText processed = true ->
  (runQueryRetrieval ai now_sweep now_store documentText processed st).1 = Threw e ->
  exists message,
    e = ErrorObject message
    /\ error (handleAnalyze ai missing now_sweep now_store documentText questions ui st).1
       = Some (js "Failed to retrieve answers. " ++ message).
Proof.
  intros processed Hvalid Hthrew.
  assert (exists message, e = ErrorObject message) as [message ->]
    by (by eapply runQueryRetrieval_threw_Error).
  exists message. split; [done|].
  unfold handleAnalyze. fold processed. rewrite Hvalid. cbn [negb].
  destruct (runQueryRetrieval _ _ _ _ _ _) as [r st']. cbn in Hthrew. by subst r.
Qed.

Lemma runQueryRetrieval_throws_errors_witness :
  let client := {| generateContent := fun _ => Rejected NotAnError |} in
  exists message,
    ErrorObject msg_unknown = ErrorObject message
    /\ error (handleAnalyze (Some client) false 1000 1500 sample_document
                (js "What is the grace period?")
                {| results := None; isLoading := false; error := None |}
                initial_state).1
       = Some (js "Failed to retrieve answers. " ++ message).
Proof.
  intros client.
  apply (runQueryRetrieval_throws_errors (Some client) false 1000 1500 sample_document
           (js "What is the grace period?")
           {| results := None; isLoading := false; error := None |} initial_state
           (ErrorObject msg_unknown)).
  - vm_compute. reflexivity.
  - vm_compute. reflexivity.
Defined.

(** ** More on the fingerprint *)

Lemma hash_loop_polynomial h s :
  hash_loop (toInt32 h) s = toInt32 (foldl (fun acc c => 31 * acc + c) h s).
Proof.
  revert h. induction s as [|c s IH]; intros h; [done|].
  cbn. rewrite <- IH. f_equal. rewrite hash_step_spec.
  destruct (toInt32_decompose h) as [k ->].
  replace (31 * (h + k * 2 ^ 32) + c) with (31 * h + c + 31 * k * 2 ^ 32) by lia.
  apply toInt32_shift.
Qed.

(** X6: the key is the decimal writing of a signed 32-bit integer, the
    value modulo [2^32] of the polynomial in 31 over the code units of the
    document text followed by the questions joined with ["||"]; the
    wrap-around of the intermediate results does not change it. *)
Theorem generateCacheKey_polynomial documentText questions :
  let combined := documentText ++ join (js "||") questions in
  generateCacheKey documentText questions = toString (toInt32 (polynomial31 combined))
  /\ int32 (toInt32 (polynomial31 combined)).
Proof.
  cbn zeta. split; [|apply toInt32_range].
  unfold generateCacheKey, polynomial31. f_equal.
  by rewrite <- hash_loop_polynomial.
Qed.

Lemma join_cons_app sep x q qs : join sep ((x ++ q) :: qs) = x ++ join sep (q :: qs).
Proof. destruct qs; cbn; [done|]. by rewrite <- (assoc_L (++)). Qed.

Lemma join_merge sep q1 q2 qs :
  join sep (q1 :: q2 :: qs) = join sep ((q1 ++ sep ++ q2) :: qs).
Proof. destruct qs; cbn; [done|]. by rewrite <- !(assoc_L (++)). Qed.

(** X7: the key does not record where the document ends and where one
    question ends: moving the end of the document text to the front of the
    first question, or writing two questions as one with ["||"] between
    them, gives the same key. *)
Theorem generateCacheKey_boundaries documentText moved q1 q2 questions :
  generateCacheKey (documentText ++ moved) (q1 :: questions)
  = generateCacheKey documentText ((moved ++ q1) :: questions)
  /\ generateCacheKey documentText (q1 :: q2 :: questions)
     = generateCacheKey documentText ((q1 ++ js "||" ++ q2) :: questions).
Proof.
  unfold generateCacheKey. split.
  - by rewrite join_cons_app, <- (assoc_L (++)).
  - by rewrite join_merge.
Qed.

(** ** Requests that share a key *)

(** The entry a call has stored is what a lookup finds after a sweep
    within [CACHE_EXPIRY] of the time of the write. *)
Lemma stored_entry_found
    client now_sweep now_store documentText questions st answers now_sweep' :
  let run := runQueryRetrieval (Some client) now_sweep now_store documentText questions st in
  run.1 = Returned (Some answers) ->
  calls run.2 = calls st ++ [prompt documentText questions] ->
  now_sweep' - now_store <= CACHE_EXPIRY ->
  responseCache (clearExpiredCache now_sweep' run.2)
    !! generateCacheKey documentText questions = Some answers.
Proof.
  intros run Hret Hgrew Hfresh.
  destruct (runQueryRetrieval_valid_inputs client now_sweep now_store
              documentText questions st) as [Hdoc Hqs]; [by right|].
  pose proof (runQueryRetrieval_cases client now_sweep now_store _ _ st Hdoc Hqs) as Hc.
  cbn zeta in Hc. fold run in Hc.
  destruct Hc as [(cached & _ & _ & Hsame & _)|(_ & _ & Hrun)];
    [rewrite Hsame in Hgrew; by apply calls_grew_ne in Hgrew|].
  assert (run.2 = cache_set (generateCacheKey documentText questions) answers now_store
                    (record_call (prompt documentText questions)
                       (clearExpiredCache now_sweep st))) as Hst.
  { rewrite Hrun. apply outbound_success. by rewrite <- Hrun. }
  destruct (clearExpiredCache_kept now_sweep' run.2
              (generateCacheKey documentText questions)) as [-> _].
  - intros ts. rewrite Hst. cbn. rewrite lookup_insert_eq.
    intros [= <-]. unfold expired. lia.
  - rewrite Hst. cbn. by rewrite lookup_insert_eq.
Qed.

(** X8: the cache is looked up by key alone.  When a call for one request
    has stored its answers at [now_store1], a call for any other valid
    request with the same key, swept within [CACHE_EXPIRY] of that time, is
    given the first request's answers and makes no provider call. *)
Theorem same_key_served_from_cache
    client1 client2 now_sweep1 now_store1 now_sweep2 now_store2
    documentText1 questions1 documentText2 questions2 st answers :
  let run1 := runQueryRetrieval (Some client1) now_sweep1 now_store1
                documentText1 questions1 st in
  let run2 := runQueryRetrieval (Some client2) now_sweep2 now_store2
                documentText2 questions2 run1.2 in
  generateCacheKey documentText1 questions1 = generateCacheKey documentText2 questions2 ->
  trim documentText2 <> [] -> questions2 <> [] ->
  run1.1 = Returned (Some answers) ->
  calls run1.2 = calls st ++ [prompt documentText1 questions1] ->
  now_sweep2 - now_store1 <= CACHE_EXPIRY ->
  run2.1 = Returned (Some answers) /\ calls run2.2 = calls run1.2.
Proof.
  intros run1 run2 Hkey Hdoc2 Hqs2 Hret Hgrew Hfresh.
  pose proof (stored_entry_found client1 now_sweep1 now_store1 documentText1 questions1
                st answers now_sweep2 Hret Hgrew Hfresh) as Hget.
  fold run1 in Hget. rewrite Hkey in Hget.
  assert (run2 = (Returned (Some answers),
                  log (ConsoleLog [AText (js "Returning cached result")])
                    (clearExpiredCache now_sweep2 run1.2))) as ->.
  { subst run2. rewrite runQueryRetrieval_valid by done. by rewrite Hget. }
  cbn [fst snd log calls].
  by destruct (clearExpiredCache_frame now_sweep2 run1.2) as [-> _].
Qed.

Lemma same_key_served_from_cache_witness :
  let run1 := runQueryRetrieval (Some (answering sample_response)) 1000 1500
                (js "Policy A covers dental care.") [js "What is the grace period?"]
                initial_state in
  let run2 := runQueryRetrieval (Some (failing (js "offline"))) 2000 2500
                (js "Policy A covers ") [js "dental care.What is the grace period?"]
                run1.2 in
  run2.1 = Returned (Some [JString (js "The grace period is thirty days.")])
  /\ calls run2.2 = calls run1.2.
Proof.
  apply (same_key_served_from_cache (answering sample_response) (failing (js "offline"))
           1000 1500 2000 2500
           (js "Policy A covers dental care.") [js "What is the grace period?"]
           (js "Policy A covers ") [js "dental care.What is the grace period?"]
           initial_state [JString (js "The grace period is thirty days.")]).
  - vm_compute. reflexivity.
  - vm_compute. discriminate.
  - discriminate.
  - vm_compute. reflexivity.
  - vm_compute. reflexivity.
  - vm_compute. discriminate.
Defined.

(** ** The form and what it shows *)

Lemma processedQuestions_all_blank questions :
  Forall (fun line => trim line = []) (split 10 questions) ->
  processedQuestions questions = [].
Proof.
  unfold processedQuestions. induction (split 10 questions) as [|line lines IH]; [done|].
  intros [Hline Hlines]%Forall_cons. rewrite filter_cons_False by (by intros ?). by apply IH.
Qed.

(** X9: when the API key is missing, or the document text is blank, or
    every line of the questions field is blank, the Analyze button is
    disabled; and [handleAnalyze], if run all the same, makes no call of
    the service: the module state, the results shown and the loading flag
    stay as they were and an error message is set. *)
Theorem handleAnalyze_invalid_form
    ai missing now_sweep now_store documentText questions ui st :
  missing = true \/ trim documentText = []
  \/ Forall (fun line => trim line = []) (split 10 questions) ->
  let out := handleAnalyze ai missing now_sweep now_store documentText questions ui st in
  analyze_disabled ui missing documentText questions = true
  /\ out.2 = st
  /\ results out.1 = results ui
  /\ isLoading out.1 = isLoading ui
  /\ is_Some (error out.1).
Proof.
  intros Hbad.
  assert (isFormValid missing documentText (processedQuestions questions) = false) as Hinv.
  { unfold isFormValid. destruct Hbad as [->|[Hdoc|Hblank]]; [done| |].
    - rewrite (bool_decide_eq_false_2 (trim documentText <> [])) by (by intros ?).
      by rewrite andb_false_r.
    - rewrite (processedQuestions_all_blank _ Hblank). cbn. by rewrite andb_false_r. }
  cbn zeta. unfold analyze_disabled, handleAnalyze. rewrite Hinv. cbn.
  rewrite orb_true_r. eauto.
Qed.

Lemma handleAnalyze_invalid_form_witness :
  let ui := {| results := None; isLoading := false; error := None |} in
  let out := handleAnalyze (Some (answering sample_response)) false 1000 1500
               sample_document (js "
   
") ui initial_state in
  analyze_disabled ui false sample_document (js "
   
") = true
  /\ out.2 = initial_state
  /\ results out.1 = results ui
  /\ isLoading out.1 = isLoading ui
  /\ is_Some (error out.1).
Proof.
  apply (handleAnalyze_invalid_form (Some (answering sample_response)) false 1000 1500
           sample_document (js "
   
") {| results := None; isLoading := false; error := None |} initial_state).
  right. right. vm_compute. repeat constructor.
Defined.

Lemma classify_not_validation e :
  classify e <> ErrorObject msg_empty_document
  /\ classify e <> ErrorObject msg_no_question
  /\ classify e <> ErrorObject msg_not_initialized.
Proof.
  unfold classify. destruct e as [m|]; repeat case_match; repeat split; discriminate.
Qed.

(** X10: the checks of the form cover those of the service.  With a
    client and a valid form, what [handleAnalyze] passes to
    [runQueryRetrieval] is never refused: none of the errors for an empty
    document, an empty question list or a missing client comes back,
    whatever the provider does. *)
Theorem valid_form_passes_service_validation
    client now_sweep now_store documentText questions st :
  let processed := processedQuestions questions in
  let run := runQueryRetrieval (Some client) now_sweep now_store documentText processed st in
  isFormValid false documentText processed = true ->
  run.1 <> Threw (ErrorObject msg_empty_document)
  /\ run.1 <> Threw (ErrorObject msg_no_question)
  /\ run.1 <> Threw (ErrorObject msg_not_initialized).
Proof.
  intros processed run Hvalid.
  destruct (isFormValid_inputs _ _ _ Hvalid) as (_ & Hdoc & Hqs).
  pose proof (runQueryRetrieval_cases client now_sweep now_store _ _ st Hdoc Hqs) as Hc.
  cbn zeta in Hc. fold run in Hc.
  destruct Hc as [(cached & _ & Hret & _)|(_ & _ & Hrun)].
  - rewrite Hret. repeat split; discriminate.
  - rewrite Hrun.
    destruct (handle_reply _ _ _ _) as [[a|e] st']; cbn [catch_block fst];
      [repeat split; discriminate|].
    destruct (classify_not_validation e) as (H1 & H2 & H3).
    split; [|split]; intros [= Heq]; eauto.
Qed.

Lemma valid_form_passes_service_validation_witness :
  let processed := processedQuestions (js "What is the grace period?") in
  let run := runQueryRetrieval (Some (failing (js "unauthorized"))) 1000 1500
               sample_document processed initial_state in
  run.1 <> Threw (ErrorObject msg_empty_document)
  /\ run.1 <> Threw (ErrorObject msg_no_question)
  /\ run.1 <> Threw (ErrorObject msg_not_initialized).
Proof.
  apply (valid_form_passes_service_validation (failing (js "unauthorized")) 1000 1500
           sample_document (js "What is the grace period?") initial_state).
  vm_compute. reflexivity.
Defined.

(** With a valid form [handleAnalyze] is a case analysis on what the
    service gives back. *)
Lemma handleAnalyze_valid ai missing now_sweep now_store documentText questions ui st :
  isFormValid missing documentText (processedQuestions questions) = true ->
  handleAnalyze ai missing now_sweep now_store documentText questions ui st
  = match runQueryRetrieval ai now_sweep now_store documentText
            (processedQuestions questions) st with
    | (Returned (Some answers), st') =>
        ({| results := Some (queryResults (processedQuestions questions) answers);
            isLoading := false; error := None |}, st')
    | (Returned None, st') =>
        ({| results := None; isLoading := false;
            error := Some (js "The model did not return a valid response. The document might be too complex or the query too ambiguous. Please try again with a clearer document or questions.") |},
         st')
    | (Threw e, st') =>
        ({| results := None; isLoading := false;
            error := Some (js "Failed to retrieve answers. "
                           ++ match e with
                              | ErrorObject message => message
                              | NotAnError => js "An unknown error occurred."
                              end) |},
         log (ConsoleError [AThrown e]) st')
    end.
Proof. intros Hvalid. unfold handleAnalyze. by rewrite Hvalid. Qed.

Lemma sentinel_truthy : truthy sentinel = true.
Proof. reflexivity. Qed.

Lemma answer_or_sentinel_cases answers index :
  truthy (answer_or_sentinel answers index) = true
  /\ (answer_or_sentinel answers index = sentinel
      \/ answers !! index = Some (answer_or_sentinel answers index))
  /\ (forall a, answers !! index = Some a -> truthy a = true ->
        answer_or_sentinel answers index = a)
  /\ (forall a, answers !! index = Some a -> truthy a = false ->
        answer_or_sentinel answers index = sentinel)
  /\ (answers !! index = None -> answer_or_sentinel answers index = sentinel).
Proof.
  unfold answer_or_sentinel. destruct (answers !! index) as [a|].
  - destruct (truthy a) eqn:Ht.
    + split; [done|]. split; [by right|]. split; [by intros ? [= <-]|].
      split; [|done]. intros a' [= <-]. congruence.
    + split; [done|]. split; [by left|]. split; [|by split].
      intros a' [= <-]. congruence.
  - split; [done|]. split; [by left|]. by repeat split.
Qed.

(** X11: whenever the form is valid and [handleAnalyze] ends with
    results, they come from an answer sequence of the service, one result
    per question and in the order of the questions, however many answers
    there were: answers beyond the last question are dropped.  No
    delivered answer is falsy: it is the service's answer at that position
    whenever that answer is there and is not falsy, and
    ["No answer found."] when that answer is missing or falsy (an empty
    string, [null], [false] or zero). *)
Theorem handleAnalyze_one_answer_per_question
    ai now_sweep now_store documentText questions ui st delivered :
  let processed := processedQuestions questions in
  isFormValid false documentText processed = true ->
  results (handleAnalyze ai false now_sweep now_store documentText questions ui st).1
  = Some delivered ->
  exists answers,
    (runQueryRetrieval ai now_sweep now_store documentText processed st).1
    = Returned (Some answers)
    /\ length delivered = length processed
    /\ forall index r,
         delivered !! index = Some r ->
         processed !! index = Some (question r)
         /\ truthy (answer r) = true
         /\ (answer r = sentinel \/ answers !! index = Some (answer r))
         /\ (forall a, answers !! index = Some a -> truthy a = true ->
               answer r = a)
         /\ (forall a, answers !! index = Some a -> truthy a = false ->
               answer r = sentinel)
         /\ (answers !! index = None -> answer r = sentinel).
Proof.
  intros processed Hvalid Hres. rewrite handleAnalyze_valid in Hres by done.
  fold processed in Hres.
  destruct (runQueryRetrieval _ _ _ _ _ _) as [[[answers|]|e] st']; cbn in Hres; try done.
  injection Hres as <-. exists answers. split; [done|]. split; [apply queryResults_length|].
  intros index r [Hq ->]%queryResults_lookup. split; [done|].
  apply answer_or_sentinel_cases.
Qed.

Lemma handleAnalyze_one_answer_per_question_witness :
  let text := jsq "{'answers':['', 'Thirty days.', 'Extra.']}" in
  let questions := js "Is maternity covered?
What is the grace period?" in
  let processed := processedQuestions questions in
  exists answers,
    (runQueryRetrieval (Some (answering text)) 1000 1500 sample_document processed
       initial_state).1 = Returned (Some answers)
    /\ length [ {| question := js "Is maternity covered?"; answer := sentinel |};
                {| question := js "What is the grace period?";
                   answer := JString (js "Thirty days.") |} ] = length processed
    /\ forall index r,
         [ {| question := js "Is maternity covered?"; answer := sentinel |};
           {| question := js "What is the grace period?";
              answer := JString (js "Thirty days.") |} ] !! index = Some r ->
         processed !! index = Some (question r)
         /\ truthy (answer r) = true
         /\ (answer r = sentinel \/ answers !! index = Some (answer r))
         /\ (forall a, answers !! index = Some a -> truthy a = true ->
               answer r = a)
         /\ (forall a, answers !! index = Some a -> truthy a = false ->
               answer r = sentinel)
         /\ (answers !! index = None -> answer r = sentinel).
Proof.
  intros text questions processed.
  apply (handleAnalyze_one_answer_per_question (Some (answering text)) 1000 1500
           sample_document questions
           {| results := None; isLoading := false; error := None |} initial_state).
  - vm_compute. reflexivity.
  - vm_compute. reflexivity.
Defined.

(** X12: when [handleAnalyze] has run with a valid form, loading is over
    and the output section shows the results exactly when the service gave
    answers, and an error message in every other case: never the loader,
    never the placeholder. *)
Theorem handleAnalyze_output_panel
    ai now_sweep now_store documentText questions ui st :
  let processed := processedQuestions questions in
  let out := handleAnalyze ai false now_sweep now_store documentText questions ui st in
  let run := runQueryRetrieval ai now_sweep now_store documentText processed st in
  isFormValid false documentText processed = true ->
  isLoading out.1 = false
  /\ (forall answers, run.1 = Returned (Some answers) ->
        output_panel out.1 = ShowResults (queryResults processed answers))
  /\ ((forall answers, run.1 <> Returned (Some answers)) ->
        results out.1 = None
        /\ exists message, error out.1 = Some message
                           /\ output_panel out.1 = ShowError message).
Proof.
  intros processed out run Hvalid. subst out run.
  rewrite handleAnalyze_valid by done. fold processed.
  destruct (runQueryRetrieval _ _ _ _ _ _) as [[[answers|]|e] st']; cbn [fst snd].
  - split; [done|]. split; [by intros ? [= <-]|]. intros Hno. by edestruct Hno.
  - split; [done|]. split; [done|]. intros _. split; [done|]. eauto.
  - split; [done|]. split; [done|]. intros _. split; [done|]. eauto.
Qed.

Lemma handleAnalyze_output_panel_witness :
  let processed := processedQuestions (js "What is the grace period?") in
  let out := handleAnalyze (Some (failing (js "rate limit hit"))) false 1000 1500
               sample_document (js "What is the grace period?")
               {| results := None; isLoading := false; error := None |} initial_state in
  let run := runQueryRetrieval (Some (failing (js "rate limit hit"))) 1000 1500
               sample_document processed initial_state in
  isLoading out.1 = false
  /\ (forall answers, run.1 = Returned (Some answers) ->
        output_panel out.1 = ShowResults (queryResults processed answers))
  /\ ((forall answers, run.1 <> Returned (Some answers)) ->
        results out.1 = None
        /\ exists message, error out.1 = Some message
                           /\ output_panel out.1 = ShowError message).
Proof.
  apply (handleAnalyze_output_panel (Some (failing (js "rate limit hit"))) 1000 1500
           sample_document (js "What is the grace period?")
           {| results := None; isLoading := false; error := None |} initial_state).
  vm_compute. reflexivity.
Defined.

(** ** Lines of questions *)

Lemma split_no_separator sep line : sep ∉ line -> split sep line = [line].
Proof.
  induction line as [|c line IH]; [done|].
  intros Hnot. apply not_elem_of_cons in Hnot as [Hne Hnot]. cbn.
  rewrite (proj2 (Z.eqb_neq c sep)) by done. by rewrite IH.
Qed.

Lemma split_line_separator sep line rest :
  sep ∉ line -> split sep (line ++ sep :: rest) = line :: split sep rest.
Proof.
  induction line as [|c line IH]; intros Hnot.
  - cbn. by rewrite Z.eqb_refl.
  - apply not_elem_of_cons in Hnot as [Hne Hnot]. cbn.
    rewrite (proj2 (Z.eqb_neq c sep)) by done. by rewrite IH.
Qed.

Lemma split_join sep lines :
  lines <> [] -> Forall (fun line => sep ∉ line) lines ->
  split sep (join [sep] lines) = lines.
Proof.
  induction lines as [|line lines IH]; [done|]. intros _ [Hline Hlines]%Forall_cons.
  destruct lines as [|line' lines].
  - by apply split_no_separator.
  - change (join [sep] (line :: line' :: lines))
      with (line ++ sep :: join [sep] (line' :: lines)).
    rewrite split_line_separator by done. f_equal. by apply IH.
Qed.

(** X13: a question field built by joining lines with a line feed, as
    [DEFAULT_QUESTIONS] is, is read back by [processedQuestions] as the
    same lines in the same order, provided no line is blank or holds a
    line feed itself. *)
Theorem processedQuestions_join_lines lines :
  Forall (fun line => trim line <> [] /\ 10 ∉ line) lines ->
  processedQuestions (join_lines lines) = lines.
Proof.
  intros Hlines. unfold processedQuestions, join_lines.
  destruct lines as [|line lines]; [done|].
  rewrite split_join; [|done|by eapply Forall_impl; [done|]; intros ? [_ ?]].
  induction Hlines as [|l ls [Hl _] _ IH]; [done|].
  rewrite filter_cons_True by done. by rewrite IH.
Qed.

Lemma processedQuestions_join_lines_witness :
  processedQuestions DEFAULT_QUESTIONS = DEFAULT_QUESTION_LINES.
Proof.
  apply (processedQuestions_join_lines DEFAULT_QUESTION_LINES).
  refine (bool_decide_unpack _ _). vm_compute. exact I.
Defined.

(** ** Analysing twice *)

(** X18: pressing Analyze again with the same form, within
    [CACHE_EXPIRY] of the time the first answers were stored, shows the
    same results as the first time and makes no provider call, whatever
    the provider would answer now. *)
Theorem repeated_analyze_same_results
    client1 client2 now_sweep1 now_store1 now_sweep2 now_store2
    documentText questions ui1 ui2 st delivered :
  let processed := processedQuestions questions in
  let out1 := handleAnalyze (Some client1) false now_sweep1 now_store1
                documentText questions ui1 st in
  let out2 := handleAnalyze (Some client2) false now_sweep2 now_store2
                documentText questions ui2 out1.2 in
  isFormValid false documentText processed = true ->
  results out1.1 = Some delivered ->
  calls out1.2 = calls st ++ [prompt documentText processed] ->
  now_sweep2 - now_store1 <= CACHE_EXPIRY ->
  out2.1 = out1.1
  /\ calls out2.2 = calls out1.2
  /\ output_panel out2.1 = ShowResults delivered.
Proof.
  intros processed out1 out2. subst processed out1 out2.
  intros Hvalid Hres Hgrew Hfresh.
  destruct (isFormValid_inputs _ _ _ Hvalid) as (_ & Hdoc & Hqs).
  pose proof (stored_entry_found client1 now_sweep1 now_store1 documentText
                (processedQuestions questions) st) as Hfound.
  cbn zeta in Hfound.
  rewrite (handleAnalyze_valid (Some client1)) in Hres, Hgrew |- * by done.
  destruct (runQueryRetrieval (Some client1) _ _ _ _ _) as [[[answers|]|e] st1];
    cbn [fst snd results] in Hres, Hgrew, Hfound |- *; try done.
  injection Hres as <-.
  specialize (Hfound answers now_sweep2 eq_refl Hgrew Hfresh).
  rewrite handleAnalyze_valid by done.
  rewrite runQueryRetrieval_valid by done. rewrite Hfound.
  cbn [fst snd log calls]. split; [done|]. split; [|done].
  by destruct (clearExpiredCache_frame now_sweep2 st1) as [-> _].
Qed.

Lemma repeated_analyze_same_results_witness :
  let ui := {| results := None; isLoading := false; error := None |} in
  let out1 := handleAnalyze (Some (answering sample_response)) false 1000 1500
                sample_document (js "What is the grace period?") ui initial_state in
  let out2 := handleAnalyze (Some (failing (js "offline"))) false 2000 2500
                sample_document (js "What is the grace period?") ui out1.2 in
  out2.1 = out1.1
  /\ calls out2.2 = calls out1.2
  /\ output_panel out2.1
     = ShowResults [ {| question := js "What is the grace period?";
                        answer := JString (js "The grace period is thirty days.") |} ].
Proof.
  apply (repeated_analyze_same_results (answering sample_response) (failing (js "offline"))
           1000 1500 2000 2500 sample_document (js "What is the grace period?")
           {| results := None; isLoading := false; error := None |}
           {| results := None; isLoading := false; error := None |} initial_state).
  - vm_compute. reflexivity.
  - vm_compute. reflexivity.
  - vm_compute. reflexivity.
  - vm_compute. discriminate.
Defined.

(** ** The prompt *)

Lemma startsWith_app s t : startsWith (s ++ t) s = true.
Proof. induction s as [|c s IH]; [by destruct t|]. cbn. by rewrite Z.eqb_refl. Qed.

Lemma includes_startsWith s pat : startsWith s pat = true -> includes s pat = true.
Proof. destruct s; cbn; by intros ->. Qed.

Lemma includes_infix pre s post : includes (pre ++ s ++ post) s = true.
Proof.
  induction pre as [|c pre IH].
  - apply includes_startsWith, (startsWith_app s post).
  - cbn. rewrite IH. apply orb_true_r.
Qed.

Lemma join_infix sep parts part :
  part ∈ parts -> exists pre post, join sep parts = pre ++ part ++ post.
Proof.
  induction parts as [|p parts IH]; [by intros ?%elem_of_nil|].
  intros [->|Hin]%elem_of_cons.
  - destruct parts as [|p' parts].
    + exists [], []. cbn. by rewrite (right_id_L [] (++)).
    + exists [], (sep ++ join sep (p' :: parts)). done.
  - destruct (IH Hin) as (pre & post & Heq). destruct parts as [|p' parts].
    + by apply elem_of_nil in Hin.
    + exists (p ++ sep ++ pre), post.
      change (join sep (p :: p' :: parts)) with (p ++ sep ++ join sep (p' :: parts)).
      rewrite Heq. by rewrite <- !(assoc_L (++)).
Qed.

(** X15: the prompt sent to the provider holds the document text as it
    was given, and, for every question, its line: the number of the
    question counted from 1, a dot, a space and the question. *)
Theorem prompt_embeds_request documentText questions :
  includes (prompt documentText questions) documentText = true
  /\ forall index q,
       questions !! index = Some q ->
       includes (prompt documentText questions)
         (toString (Z.of_nat index + 1) ++ js ". " ++ q) = true.
Proof.
  split.
  - unfold prompt. apply includes_infix.
  - intros index q Hq.
    destruct (join_infix [10]
                (imap (fun i q => toString (Z.of_nat i + 1) ++ js ". " ++ q) questions)
                (toString (Z.of_nat index + 1) ++ js ". " ++ q)) as (pre & post & Heq).
    { apply list_elem_of_lookup. exists index. by rewrite list_lookup_imap, Hq. }
    unfold prompt, formattedQuestions. rewrite Heq.
    match goal with
    | |- includes (?A ++ ?d ++ ?B ++ (?p ++ ?line ++ ?q) ++ ?C) _ = true =>
        replace (A ++ d ++ B ++ (p ++ line ++ q) ++ C)
          with ((A ++ d ++ B ++ p) ++ line ++ (q ++ C))
          by (by rewrite <- !(assoc_L (++)))
    end.
    apply includes_infix.
Qed.

Lemma prompt_embeds_request_witness :
  includes (prompt sample_document [js "First?"; js "Second?"]) (js "2. Second?") = true.
Proof.
  apply (proj2 (prompt_embeds_request sample_document [js "First?"; js "Second?"])
           1%nat (js "Second?")).
  reflexivity.
Defined.

(** ** The keys of the result items *)

Lemma pretty_N_go_no_dash x s : 45 ∉ js s -> 45 ∉ js (pretty_N_go x s).
Proof.
  revert s. induction (N.lt_wf_0 x) as [x _ IH]. intros s Hs.
  assert (x = 0 \/ 0 < x)%N as [->|Hpos] by lia; [by rewrite pretty_N_go_0|].
  rewrite pretty_N_go_step by done. apply IH; [by apply N.div_lt|].
  cbn [js]. apply not_elem_of_cons. split; [|done].
  unfold pretty_N_char. by repeat case_match.
Qed.

Lemma toString_nat_no_dash n : 45 ∉ toString (Z.of_nat n).
Proof.
  unfold toString. destruct (Z.of_nat n) as [|p|p] eqn:Hn; [| |lia].
  - cbn. by intros [?|?%elem_of_nil]%elem_of_cons.
  - unfold pretty, pretty_Z, pretty, pretty_positive, pretty, pretty_N.
    rewrite decide_False by done. apply pretty_N_go_no_dash. cbn. apply not_elem_of_nil.
Qed.

Lemma first_occurrence (a b r r' : jsstring) x :
  x ∉ a -> x ∉ b -> a ++ x :: r = b ++ x :: r' -> a = b /\ r = r'.
Proof.
  revert b. induction a as [|c a IH]; intros [|d b] Ha Hb Heq; cbn in Heq.
  - by injection Heq as <-.
  - injection Heq as <- _. apply not_elem_of_cons in Hb as [? _]. done.
  - injection Heq as -> _. apply not_elem_of_cons in Ha as [? _]. done.
  - injection Heq as -> Heq.
    apply not_elem_of_cons in Ha as [_ Ha]. apply not_elem_of_cons in Hb as [_ Hb].
    destruct (IH b Ha Hb Heq) as [-> ->]. done.
Qed.

Lemma last_occurrence (p p' l l' : jsstring) x :
  x ∉ l -> x ∉ l' -> p ++ x :: l = p' ++ x :: l' -> p = p' /\ l = l'.
Proof.
  intros Hl Hl' Heq. apply (f_equal reverse) in Heq.
  rewrite !reverse_app, !reverse_cons, <- !(assoc_L (++)) in Heq. cbn in Heq.
  apply first_occurrence in Heq as [Hr Hp]; [|by rewrite elem_of_reverse..].
  split; by apply (inj reverse).
Qed.

(** X16: the React keys [ResultsDisplay] gives to its items are pairwise
    different, whatever the questions are, also when a question is
    repeated or ends in a dash and digits: items at different positions
    never get the same key. *)
Theorem ResultsDisplay_keys_unique shown :
  NoDup (ResultsDisplay_keys shown)
  /\ forall i j ri rj,
       shown !! i = Some ri -> shown !! j = Some rj ->
       i <> j -> result_key i ri <> result_key j rj.
Proof.
  assert (forall i j ri rj, result_key i ri = result_key j rj -> i = j) as Hkey.
  { intros i j ri rj Heq. unfold result_key in Heq.
    change (js "-" ++ ?s) with (45 :: s) in Heq.
    apply last_occurrence in Heq as [Hq Hi]; [|apply toString_nat_no_dash..].
    apply toString_inj in Hi. lia. }
  split; [|by intros i j ri rj _ _ Hne ?%Hkey].
  apply NoDup_alt. intros i j key. unfold ResultsDisplay_keys.
  rewrite !list_lookup_imap.
  destruct (shown !! i) as [ri|]; [|done]. destruct (shown !! j) as [rj|]; [|done].
  cbn. intros [= <-] [= Heq]. symmetry in Heq. by apply Hkey in Heq.
Qed.

Lemma ResultsDisplay_keys_unique_witness :
  result_key 0 {| question := js "Plan-1"; answer := sentinel |}
  <> result_key 1 {| question := js "Plan"; answer := sentinel |}.
Proof.
  apply (proj2 (ResultsDisplay_keys_unique
                  [ {| question := js "Plan-1"; answer := sentinel |};
                    {| question := js "Plan"; answer := sentinel |} ])
           0%nat 1%nat); [reflexivity | reflexivity | lia].
Defined.

(** ** The service before caching *)

(** X17: the earlier service has no input validation and no memory: with
    a client it sends the prompt to the provider on every call, also for an
    empty document and an empty question list, and it never touches the two
    maps. *)
Theorem uncached_always_calls eng client documentText questions st :
  let run := Uncached.runQueryRetrieval eng (Some client) documentText questions st in
  calls run.2 = calls st ++ [prompt documentText questions]
  /\ responseCache run.2 = responseCache st
  /\ cacheTimestamps run.2 = cacheTimestamps st.
Proof.
  cbn zeta. unfold Uncached.runQueryRetrieval, Uncached.try_block.
  repeat case_match; done.
Qed.

(** X19: on valid input and a cache miss the caching service asks the
    provider the same prompt as the earlier one, and whenever the earlier
    service returns (answers or [null]) the caching one returns the same.
    They differ when the response has no text: the earlier service throws,
    the caching one returns [null]. *)
Theorem caching_agrees_with_uncached
    eng client now_sweep now_store documentText questions st :
  let run := runQueryRetrieval (Some client) now_sweep now_store documentText questions st in
  let old := Uncached.runQueryRetrieval eng (Some client) documentText questions st in
  trim documentText <> [] -> questions <> [] ->
  responseCache (clearExpiredCache now_sweep st)
    !! generateCacheKey documentText questions = None ->
  calls run.2 = calls old.2
  /\ (forall result, old.1 = Returned result -> run.1 = Returned result)
  /\ (generateContent client (prompt documentText questions) = Fulfilled None ->
      run.1 = Returned None
      /\ old.1 = Threw (ErrorObject (msg_generic_prefix ++ Uncached.TypeError_message eng))).
Proof.
  intros run old Hdoc Hqs Hmiss. subst run old.
  rewrite runQueryRetrieval_valid by done. rewrite Hmiss.
  split; [|split].
  - rewrite outbound_calls. cbn [calls record_call].
    destruct (clearExpiredCache_frame now_sweep st) as [-> _].
    unfold Uncached.runQueryRetrieval, Uncached.try_block.
    repeat case_match; done.
  - intros result. unfold Uncached.runQueryRetrieval, Uncached.try_block, handle_reply.
    destruct (generateContent client (prompt documentText questions)) as [[text|]|e];
      cbn [fmap option_fmap option_map]; try done.
    destruct (trim text) as [|c responseText]; [done|].
    destruct (JSON_parse (c :: responseText)) as [parsed|]; [|done].
    destruct (if truthy parsed then answers_array parsed else None); done.
  - intros Hreply. unfold Uncached.runQueryRetrieval, Uncached.try_block, handle_reply.
    by rewrite Hreply.
Qed.

Lemma caching_agrees_with_uncached_witness :
  let client := {| generateContent := fun _ => Fulfilled None |} in
  let run := runQueryRetrieval (Some client) 1000 1500
               sample_document sample_questions initial_state in
  let old := Uncached.runQueryRetrieval sample_engine (Some client)
               sample_document sample_questions initial_state in
  calls run.2 = calls old.2
  /\ (forall result, old.1 = Returned result -> run.1 = Returned result)
  /\ (generateContent client (prompt sample_document sample_questions) = Fulfilled None ->
      run.1 = Returned None
      /\ old.1 = Threw (ErrorObject
                          (msg_generic_prefix ++ Uncached.TypeError_message sample_engine))).
Proof.
  intros client.
  apply (caching_agrees_with_uncached sample_engine client 1000 1500
           sample_document sample_questions initial_state).
  - vm_compute. discriminate.
  - discriminate.
  - vm_compute. reflexivity.
Defined.

(** ** Which keys a call can add *)

(** X20: a call adds at most one key to the cache, the key of its own
    request: any other key that has an entry after the call had that same
    entry before it.  A call that throws or returns [null] adds none. *)
Theorem runQueryRetrieval_adds_only_own_key
    ai now_sweep now_store documentText questions st key' stored :
  let run := runQueryRetrieval ai now_sweep now_store documentText questions st in
  responseCache run.2 !! key' = Some stored ->
  responseCache st !! key' = Some stored
  \/ (key' = generateCacheKey documentText questions
      /\ run.1 = Returned (Some stored)
      /\ calls run.2 = calls st ++ [prompt documentText questions]).
Proof.
  intros run Hstored. subst run.
  destruct ai as [client|]; [|by left].
  destruct (decide (trim documentText = [])) as [Hdoc|Hdoc];
    [|destruct (decide (questions = [])) as [Hqs|Hqs]].
  - destruct (runQueryRetrieval_invalid client now_sweep now_store documentText questions st)
      as [m Heq]; [eauto|]. rewrite Heq in Hstored. by left.
  - destruct (runQueryRetrieval_invalid client now_sweep now_store documentText questions st)
      as [m Heq]; [eauto|]. rewrite Heq in Hstored. by left.
  - destruct (runQueryRetrieval_cases client now_sweep now_store _ _ st Hdoc Hqs)
      as [(cached & _ & _ & _ & Hrc & _)|(_ & Hgrew & Hrun)].
    + rewrite Hrc in Hstored. left. by apply clearExpiredCache_lookup_Some in Hstored as [? _].
    + destruct (decide (key' = generateCacheKey documentText questions)) as [->|Hne].
      * destruct (runQueryRetrieval (Some client) now_sweep now_store
                    documentText questions st).1 as [[answers|]|e] eqn:Hret.
        -- right. split; [done|]. split; [|done].
           rewrite Hrun in Hret. apply outbound_success in Hret.
           rewrite <- Hrun in Hret. rewrite Hret in Hstored. cbn in Hstored.
           rewrite lookup_insert_eq in Hstored. congruence.
        -- left. rewrite Hrun in Hret, Hstored.
           destruct (outbound_failure (generateCacheKey documentText questions) now_store
                       (generateContent client (prompt documentText questions))
                       (record_call (prompt documentText questions)
                          (clearExpiredCache now_sweep st))) as [Hrc _].
           { intros answers. by rewrite Hret. }
           rewrite Hrc in Hstored. cbn [record_call responseCache] in Hstored.
           by apply clearExpiredCache_lookup_Some in Hstored as [? _].
        -- left. rewrite Hrun in Hret, Hstored.
           destruct (outbound_failure (generateCacheKey documentText questions) now_store
                       (generateContent client (prompt documentText questions))
                       (record_call (prompt documentText questions)
                          (clearExpiredCache now_sweep st))) as [Hrc _].
           { intros answers. by rewrite Hret. }
           rewrite Hrc in Hstored. cbn [record_call responseCache] in Hstored.
           by apply clearExpiredCache_lookup_Some in Hstored as [? _].
      * left. rewrite Hrun in Hstored.
        destruct (outbound_other_key (generateCacheKey documentText questions) now_store
                    (generateContent client (prompt documentText questions))
                    (record_call (prompt documentText questions)
                       (clearExpiredCache now_sweep st)) key' Hne) as [Hrc _].
        rewrite Hrc in Hstored. cbn [record_call responseCache] in Hstored.
        by apply clearExpiredCache_lookup_Some in Hstored as [? _].
Qed.

Lemma runQueryRetrieval_adds_only_own_key_witness :
  let key' := generateCacheKey sample_document sample_questions in
  let stored := [JString (js "The grace period is thirty days.")] in
  let run := runQueryRetrieval (Some (answering (js "not json"))) 2000 2500
               sample_document [js "Is maternity covered?"] sample_state in
  responseCache sample_state !! key' = Some stored
  \/ (key' = generateCacheKey sample_document [js "Is maternity covered?"]
      /\ run.1 = Returned (Some stored)
      /\ calls run.2
         = calls sample_state ++ [prompt sample_document [js "Is maternity covered?"]]).
Proof.
  apply (runQueryRetrieval_adds_only_own_key (Some (answering (js "not json"))) 2000 2500
           sample_document [js "Is maternity covered?"] sample_state
           (generateCacheKey sample_document sample_questions)
           [JString (js "The grace period is thirty days.")]).
  vm_compute. reflexivity.
Defined.
